(** * Index Gateway client (pkg/storage/stores/shipper/gateway_client.go)

    A shallow embedding of the query path of [GatewayClient]: batch
    splitting in [QueryPages], request construction in [doQueries], stream
    consumption in [clientDoQueries], replica failover in
    [ringModeDoQueries], and the [readBatch] / [grpcIter] row cursor.

    Go's [int] is a 64-bit two's complement integer: it is a [Z] and every
    addition and multiplication of the source is followed by [wrap64].
    A Go [map[string]index.Query] is a [gmap string Query].  Functions that
    talk to collaborators (ring, connection pool, gRPC, the caller's
    callback, the logger) run in the monad [M], which threads the state of
    the collaborators, collects the events the call emits and propagates
    panics. *)

From Stdlib Require Import ZArith Lia Strings.Byte.
From stdpp Require Import gmap strings list fin_maps.

Open Scope Z_scope.

(** ** Go integers and slices *)

Definition min_int : Z := - 2 ^ 63.
Definition max_int : Z := 2 ^ 63 - 1.

(** Result of an [int] operation, reduced to 64 bits. *)
Definition wrap64 (x : Z) : Z := (x + 2 ^ 63) mod 2 ^ 64 - 2 ^ 63.

(** [len(s)] of a slice. *)
Definition len {A} (s : list A) : Z := Z.of_nat (length s).

(** Outcome of a Go function body: it returns, or it panics. *)
Inductive outcome (A : Type) : Type :=
| Returned (a : A)
| Panicked (msg : string).
Arguments Returned {A} a.
Arguments Panicked {A} msg.

(** The slice expression [s[lo:hi]]; out of range bounds panic.  Go checks
    [hi] against the capacity; the client only slices with
    [hi <= len(s)], so the length is used here. *)
Definition go_slice {A} (s : list A) (lo hi : Z) : outcome (list A) :=
  if (0 <=? lo) && (lo <=? hi) && (hi <=? len s)
  then Returned (take (Z.to_nat (hi - lo)) (drop (Z.to_nat lo) s))
  else Panicked "slice bounds out of range".

(** The index expression [s[i]]; an index out of range panics. *)
Definition go_index {A} (s : list A) (i : Z) : outcome A :=
  if (0 <=? i) && (i <? len s)
  then match s !! Z.to_nat i with
       | Some a => Returned a
       | None => Panicked "index out of range"
       end
  else Panicked "index out of range".

(** Modelled from the spec: [util_math.Min] (pkg/util/math) is not under
    src/; the spec writes the upper bound of a job as
    [min((i+1)*cap, size)]. *)
Definition util_math_Min (a b : Z) : Z := if a <? b then a else b.

Definition maxQueriesPerGrpc : Z := 100.
Definition maxConcurrentGrpcCalls : Z := 10.

(** ** Data model *)

(** [index.Query]. *)
Record Query := {
  TableName : string;
  HashValue : string;
  RangeValuePrefix : list byte;
  RangeValueStart : list byte;
  ValueEqual : list byte
}.

(** [indexgatewaypb.IndexQuery], the wire descriptor of a query. *)
Record IndexQuery := {
  iq_TableName : string;
  iq_HashValue : string;
  iq_RangeValuePrefix : list byte;
  iq_RangeValueStart : list byte;
  iq_ValueEqual : list byte
}.

(** [indexgatewaypb.QueryIndexRequest]. *)
Record QueryIndexRequest := { Queries : list IndexQuery }.

(** [indexgatewaypb.Row]. *)
Record Row := { RangeValue : list byte; Value : list byte }.

(** [indexgatewaypb.QueryIndexResponse]: one response unit of the stream. *)
Record QueryIndexResponse := { QueryKey : string; Rows : list Row }.

(** Go [error] values that are not nil.  [External] stands for an error
    made by a collaborator. *)
Inductive error : Type :=
| External (msg : string)
| Wrap (err : error) (message : string)
| WithStack (err : error)
| Errorf (msg : string).

(** [indexgateway.Mode]. *)
Inductive Mode := SimpleMode | RingMode.

Global Instance Mode_eq_dec : EqDecision Mode.
Proof. solve_decision. Defined.

(** [ring.Operation]; the client only ever passes [WriteNoExtend]. *)
Inductive Operation := Read | Write | WriteNoExtend | Reporting.

(** [ring.InstanceDesc] and [ring.ReplicationSet], as far as the client
    reads them. *)
Record InstanceDesc := { Addr : string }.
Record ReplicationSet := { Instances : list InstanceDesc }.

Definition GetAddresses (rs : ReplicationSet) : list string :=
  map Addr (Instances rs).

(** ** readBatch and grpcIter *)

Record readBatch := { rb_QueryIndexResponse : QueryIndexResponse }.

Record grpcIter := {
  i : Z;
  it_QueryIndexResponse : QueryIndexResponse
}.

Definition Iterator (r : readBatch) : grpcIter :=
  {| i := -1; it_QueryIndexResponse := rb_QueryIndexResponse r |}.

(** [Next] mutates the receiver: the result is the returned boolean and the
    iterator after the call. *)
Definition Next (b : grpcIter) : bool * grpcIter :=
  let b' := {| i := wrap64 (i b + 1);
               it_QueryIndexResponse := it_QueryIndexResponse b |} in
  (i b' <? len (Rows (it_QueryIndexResponse b')), b').

Definition iter_RangeValue (b : grpcIter) : outcome (list byte) :=
  match go_index (Rows (it_QueryIndexResponse b)) (i b) with
  | Returned row => Returned (RangeValue row)
  | Panicked msg => Panicked msg
  end.

Definition iter_Value (b : grpcIter) : outcome (list byte) :=
  match go_index (Rows (it_QueryIndexResponse b)) (i b) with
  | Returned row => Returned (Value row)
  | Panicked msg => Panicked msg
  end.

(** The iterator after [k] calls of [Next]. *)
Fixpoint after_Next (k : nat) (b : grpcIter) : grpcIter :=
  match k with
  | O => b
  | S k' => after_Next k' (snd (Next b))
  end.

(** What the [k]-th call of [Next] (counted from 1) returns. *)
Definition nth_Next (k : nat) (b : grpcIter) : bool :=
  fst (Next (after_Next (Nat.pred k) b)).

(** ** Events and the monad of effectful calls *)

(** The three [level.Error(...).Log] records of the client. *)
Inductive log_record :=
| LogUnexpectedQueryKey (key : string) (expected : gmap string Query)
| LogGetClientFailed (addr : string) (err : error)
| LogClientDoQueriesFailed (addr : string) (err : error).

(** What one [streamer.Recv()] gives: a response, [io.EOF], or another
    error. *)
Inductive recv_result :=
| RecvMsg (resp : QueryIndexResponse)
| RecvEOF
| RecvErr (err : error).

(** Calls of the client to its collaborators, in the order they happen. *)
Inductive event (Client : Type) :=
| EvRingGet (key : Z) (op : Operation)
| EvShuffle (addrs : list string)
| EvGetClientFor (addr : string)
| EvQueryIndex (client : Client) (req : QueryIndexRequest)
| EvRecv (r : recv_result)
| EvCallback (query : Query) (batch : readBatch) (continue : bool)
| EvLog (r : log_record).
Arguments EvRingGet {Client} key op.
Arguments EvShuffle {Client} addrs.
Arguments EvGetClientFor {Client} addr.
Arguments EvQueryIndex {Client} client req.
Arguments EvRecv {Client} r.
Arguments EvCallback {Client} query batch continue.
Arguments EvLog {Client} r.

(** A server-side stream as the client sees it through [streamer.Recv()]:
    the response units in arrival order, then the status that ends it
    ([None] is [io.EOF], [Some err] another error). *)
Record ServerStream := {
  stream_msgs : list QueryIndexResponse;
  stream_status : option error
}.

Section Monad.
Context {Ext Client : Type}.

(** A call takes the state of the collaborators and gives its outcome,
    their new state and the events it emitted. *)
Definition M (A : Type) : Type :=
  Ext -> outcome A * Ext * list (event Client).

Definition ret {A} (a : A) : M A := fun x => (Returned a, x, []).

Definition bind {A B} (m : M A) (k : A -> M B) : M B := fun x =>
  match m x with
  | (Returned a, x', t) =>
      match k a x' with (r, x'', t') => (r, x'', t ++ t') end
  | (Panicked msg, x', t) => (Panicked msg, x', t)
  end.

Definition emit (e : event Client) : M unit :=
  fun x => (Returned tt, x, [e]).

Definition panic {A} (msg : string) : M A :=
  fun x => (Panicked msg, x, []).

Definition lift_outcome {A} (o : outcome A) : M A :=
  fun x => (o, x, []).

(** A call into a collaborator, recorded by the event [e] made from its
    result. *)
Definition extern {A} (f : Ext -> A * Ext) (e : A -> event Client) : M A :=
  fun x => let (a, x') := f x in (Returned a, x', [e a]).
End Monad.
Arguments M : clear implicits.

Declare Scope go_scope.
Delimit Scope go_scope with go.
Notation "x <- m ;; k" := (bind m (fun x => k))
  (at level 100, m at next level, right associativity) : go_scope.
Notation "m ;;; k" := (bind m (fun _ => k))
  (at level 100, right associativity) : go_scope.
Open Scope go_scope.

(** [index.QueryPagesCallback]: the caller's code, which may change the
    caller's state. *)
Definition QueryPagesCallback (Ext : Type) : Type :=
  Query -> readBatch -> Ext -> bool * Ext.

(** ** Collaborators *)

(** What the client consumes and does not implement. *)
Class Collaborators (Ext Client context : Type) := {
  (** [shipper_util.QueryKey] *)
  shipper_util_QueryKey : Query -> string;
  (** [tenant.TenantID] *)
  tenant_TenantID : context -> string + error;
  (** [util.TokenFor], a uint32 *)
  util_TokenFor : string -> string -> Z;
  (** [s.ring.Get] *)
  ring_Get : Z -> Operation -> Ext -> (ReplicationSet + error) * Ext;
  (** [rand.Shuffle] applied to the address slice *)
  rand_Shuffle : list string -> Ext -> list string * Ext;
  (** [s.pool.GetClientFor], already asserted to be an IndexGatewayClient *)
  pool_GetClientFor : string -> Ext -> (Client + error) * Ext;
  (** [client.QueryIndex] *)
  QueryIndex : Client -> context -> QueryIndexRequest -> Ext ->
               (ServerStream + error) * Ext;
  (** [concurrency.ForEachJob] *)
  concurrency_ForEachJob :
    context -> Z -> Z -> (context -> Z -> M Ext Client (option error)) ->
    M Ext Client (option error)
}.

(** [GatewayClient], as far as the query path reads it. *)
Record GatewayClient (Client : Type) := {
  cfg_Mode : Mode;
  grpcClient : Client
}.
Arguments cfg_Mode {Client} g.
Arguments grpcClient {Client} g.

(** ** The query path *)

Section Client.
Context {Ext Client context : Type} `{!Collaborators Ext Client context}.

Local Abbreviation M := (M Ext Client).

(** The wire descriptor appended for [query] in [doQueries]. *)
Definition toIndexQuery (query : Query) : IndexQuery :=
  {| iq_TableName := TableName query;
     iq_HashValue := HashValue query;
     iq_RangeValuePrefix := RangeValuePrefix query;
     iq_RangeValueStart := RangeValueStart query;
     iq_ValueEqual := ValueEqual query |}.

(** The [for _, query := range queries] loop of [doQueries], from the
    empty map and the empty slice. *)
Definition doQueries_build (queries : list Query)
  : gmap string Query * list IndexQuery :=
  foldl (fun acc query =>
           (<[shipper_util_QueryKey query := query]> (fst acc),
            snd acc ++ [toIndexQuery query]))
        (∅, []) queries.

(** The [for] loop of [clientDoQueries] over what is left of the stream. *)
Fixpoint recv_loop (msgs : list QueryIndexResponse) (status : option error)
    (queryKeyQueryMap : gmap string Query) (callback : QueryPagesCallback Ext)
  : M (option error) :=
  match msgs with
  | [] =>
      match status with
      | None => emit (EvRecv RecvEOF) ;;; ret None
      | Some err => emit (EvRecv (RecvErr err)) ;;; ret (Some (WithStack err))
      end
  | resp :: rest =>
      emit (EvRecv (RecvMsg resp)) ;;;
      match queryKeyQueryMap !! QueryKey resp with
      | None =>
          emit (EvLog (LogUnexpectedQueryKey (QueryKey resp) queryKeyQueryMap)) ;;;
          ret (Some (Errorf ("unexpected " +:+ QueryKey resp +:+ " QueryKey received")))
      | Some query =>
          continue <- extern (callback query {| rb_QueryIndexResponse := resp |})
                             (EvCallback query {| rb_QueryIndexResponse := resp |}) ;;
          if continue then recv_loop rest status queryKeyQueryMap callback
          else ret None
      end
  end.

Definition clientDoQueries (ctx : context) (gatewayQueries : list IndexQuery)
    (queryKeyQueryMap : gmap string Query) (callback : QueryPagesCallback Ext)
    (client : Client) : M (option error) :=
  r <- extern (QueryIndex client ctx {| Queries := gatewayQueries |})
              (fun _ => EvQueryIndex client {| Queries := gatewayQueries |}) ;;
  match r with
  | inr err => ret (Some (Wrap err "query index"))
  | inl streamer =>
      recv_loop (stream_msgs streamer) (stream_status streamer)
                queryKeyQueryMap callback
  end.

(** The [for _, addr := range addrs] loop of [ringModeDoQueries] and the
    [return] after it. *)
Fixpoint replica_loop (addrs : list string) (ctx : context)
    (gatewayQueries : list IndexQuery) (queryKeyQueryMap : gmap string Query)
    (callback : QueryPagesCallback Ext) : M (option error) :=
  match addrs with
  | [] => ret (Some (Errorf "index gateway replicationSet clientDoQueries"))
  | addr :: rest =>
      r <- extern (pool_GetClientFor addr) (fun _ => EvGetClientFor addr) ;;
      match r with
      | inr err =>
          emit (EvLog (LogGetClientFailed addr err)) ;;;
          replica_loop rest ctx gatewayQueries queryKeyQueryMap callback
      | inl client =>
          e <- clientDoQueries ctx gatewayQueries queryKeyQueryMap callback client ;;
          match e with
          | Some err =>
              emit (EvLog (LogClientDoQueriesFailed addr err)) ;;;
              replica_loop rest ctx gatewayQueries queryKeyQueryMap callback
          | None => ret None
          end
      end
  end.

(** [ringModeDoQueries]; the scratch buffers of [ring.MakeBuffersForGet]
    only serve the lookup and are left out. *)
Definition ringModeDoQueries (ctx : context)
    (gatewayQueries : list IndexQuery) (queryKeyQueryMap : gmap string Query)
    (callback : QueryPagesCallback Ext) : M (option error) :=
  match tenant_TenantID ctx with
  | inr err => ret (Some (Wrap err "index gateway client get tenant ID"))
  | inl userID =>
      let key := util_TokenFor userID "" in
      r <- extern (ring_Get key WriteNoExtend)
                  (fun _ => EvRingGet key WriteNoExtend) ;;
      match r with
      | inr err => ret (Some (Wrap err "index gateway get ring"))
      | inl rs =>
          addrs <- extern (rand_Shuffle (GetAddresses rs)) EvShuffle ;;
          replica_loop addrs ctx gatewayQueries queryKeyQueryMap callback
      end
  end.

Definition doQueries (s : GatewayClient Client) (ctx : context)
    (queries : list Query) (callback : QueryPagesCallback Ext)
  : M (option error) :=
  let (queryKeyQueryMap, gatewayQueries) := doQueries_build queries in
  if decide (cfg_Mode s = RingMode)
  then ringModeDoQueries ctx gatewayQueries queryKeyQueryMap callback
  else clientDoQueries ctx gatewayQueries queryKeyQueryMap callback
                       (grpcClient s).

(** [jobsCount] of [QueryPages]; Go's [/] and [%] truncate. *)
Definition jobsCount (queries : list Query) : Z :=
  let jobsCount := Z.quot (len queries) maxQueriesPerGrpc in
  if negb (Z.rem (len queries) maxQueriesPerGrpc =? 0)
  then wrap64 (jobsCount + 1)
  else jobsCount.

(** The function literal handed to [concurrency.ForEachJob]. *)
Definition jobFunc (s : GatewayClient Client) (queries : list Query)
    (callback : QueryPagesCallback Ext) (ctx : context) (idx : Z)
  : M (option error) :=
  sub <- lift_outcome
           (go_slice queries
              (wrap64 (idx * maxQueriesPerGrpc))
              (util_math_Min (wrap64 (wrap64 (idx + 1) * maxQueriesPerGrpc))
                             (len queries))) ;;
  doQueries s ctx sub callback.

Definition QueryPages (s : GatewayClient Client) (ctx : context)
    (queries : list Query) (callback : QueryPagesCallback Ext)
  : M (option error) :=
  if len queries <=? maxQueriesPerGrpc
  then doQueries s ctx queries callback
  else concurrency_ForEachJob ctx (jobsCount queries) maxConcurrentGrpcCalls
                              (jobFunc s queries callback).

(** The write path; [WriteBatch] is the interface [index.WriteBatch]. *)
Definition NewWriteBatch {WriteBatch : Type} (s : GatewayClient Client)
  : outcome WriteBatch :=
  Panicked "unsupported".

Definition BatchWrite {WriteBatch : Type} (s : GatewayClient Client)
    (ctx : context) (batch : WriteBatch) : M (option error) :=
  panic "unsupported".

End Client.

(** ** Reading the events of a call *)

(** The error [clientDoQueries] returns for a response whose key is not in
    the map, and the error [ringModeDoQueries] returns after the last
    replica. *)
Definition unexpected_key_error (key : string) : error :=
  Errorf ("unexpected " +:+ key +:+ " QueryKey received").

Definition no_replica_error : error :=
  Errorf "index gateway replicationSet clientDoQueries".


Section Events.
Context {Client : Type}.

(** Which events are RPC calls. *)
Definition is_rpc (e : event Client) : bool :=
  match e with EvQueryIndex _ _ => true | _ => false end.

(** The requests of the RPC calls, in order. *)
Definition rpc_requests (t : list (event Client)) : list QueryIndexRequest :=
  omap (fun e => match e with EvQueryIndex _ req => Some req | _ => None end) t.

(** The addresses a connection handle was asked for, in order. *)
Definition contacted (t : list (event Client)) : list string :=
  omap (fun e => match e with EvGetClientFor a => Some a | _ => None end) t.

(** The addresses logged as failed by the replica loop, in order. *)
Definition logged_failures (t : list (event Client)) : list string :=
  omap (fun e => match e with
                 | EvLog (LogGetClientFailed a _) => Some a
                 | EvLog (LogClientDoQueriesFailed a _) => Some a
                 | _ => None
                 end) t.

(** The callback invocations, in order. *)
Definition callbacks (t : list (event Client)) : list (Query * readBatch) :=
  omap (fun e => match e with EvCallback q b _ => Some (q, b) | _ => None end) t.

(** What [doQueries] may emit for the request [gq] and the key map [m]:
    RPC calls carry exactly [gq], and the callback gets the query the map
    holds for the key of the response. *)
Definition emitted_for (gq : list IndexQuery) (m : gmap string Query)
    (e : event Client) : Prop :=
  match e with
  | EvQueryIndex _ req => req = {| Queries := gq |}
  | EvCallback q b _ => m !! QueryKey (rb_QueryIndexResponse b) = Some q
  | _ => True
  end.
End Events.

(** The queries of job [idx]: the slice of [queries] over the indices from
    [idx * 100] up to, not including, [min ((idx + 1) * 100) (len queries)]. *)
Definition job_queries (queries : list Query) (idx : Z) : list Query :=
  take (Z.to_nat (Z.min ((idx + 1) * maxQueriesPerGrpc) (len queries)
                  - idx * maxQueriesPerGrpc))
       (drop (Z.to_nat (idx * maxQueriesPerGrpc)) queries).

(** What the callback is handed for the response [resp] under the key map
    [m], if its key is in the map. *)
Definition delivery (m : gmap string Query) (resp : QueryIndexResponse)
  : option (Query * readBatch) :=
  (fun query => (query, {| rb_QueryIndexResponse := resp |}))
    <$> m !! QueryKey resp.

(** The ring lookups of a call, in order. *)
Definition ring_lookups {Client : Type} (t : list (event Client))
  : list (Z * Operation) :=
  omap (fun e => match e with EvRingGet key op => Some (key, op) | _ => None end) t.

(** The responses received by a call, in order. *)
Definition received {Client : Type} (t : list (event Client))
  : list QueryIndexResponse :=
  omap (fun e => match e with EvRecv (RecvMsg resp) => Some resp | _ => None end) t.

(** The way a caller reads an iterator:
    [for it.Next() { it.RangeValue(); it.Value() }], collecting the pairs.
    [None] when the loop needs more than [fuel] calls of [Next]. *)
Fixpoint drain (fuel : nat) (b : grpcIter)
  : option (outcome (list (list byte * list byte))) :=
  match fuel with
  | O => None
  | S fuel' =>
      let (more, b') := Next b in
      if more then
        match iter_RangeValue b', iter_Value b' with
        | Returned rangeValue, Returned value =>
            match drain fuel' b' with
            | Some (Returned rows) => Some (Returned ((rangeValue, value) :: rows))
            | other => other
            end
        | Panicked msg, _ => Some (Panicked msg)
        | _, Panicked msg => Some (Panicked msg)
        end
      else Some (Returned [])
  end.

(** ** A concrete set of collaborators

    Used to run the client on examples: the network is a table from
    address to what the pool and the server answer, the caller counts the
    callback invocations, and [concurrency.ForEachJob] is run with the
    schedule of a single worker. *)

(** The schedule of [concurrency.ForEachJob] with one worker: jobs in index
    order, stopping at the first error. *)
Fixpoint run_jobs {Ext Client context : Type}
    (idxs : list Z) (ctx : context)
    (f : context -> Z -> M Ext Client (option error))
  : M Ext Client (option error) :=
  match idxs with
  | [] => ret None
  | idx :: rest =>
      e <- f ctx idx ;;
      match e with
      | Some err => ret (Some err)
      | None => run_jobs rest ctx f
      end
  end.

Definition ForEachJob_one_worker {Ext Client context : Type}
    (ctx : context) (jobs concurrency : Z)
    (f : context -> Z -> M Ext Client (option error))
  : M Ext Client (option error) :=
  run_jobs (seqZ 0 jobs) ctx f.

Module Demo.

Record World := {
  w_ring : ReplicationSet + error;
  w_pool : string -> string + error;
  w_server : string -> ServerStream + error;
  w_calls : nat
}.

Definition count_call (w : World) : World :=
  {| w_ring := w_ring w; w_pool := w_pool w; w_server := w_server w;
     w_calls := S (w_calls w) |}.

(** A stand-in for the key codec: table and hash joined. *)
Definition table_hash_key (q : Query) : string :=
  TableName q +:+ ":" +:+ HashValue q.

#[global] Instance collaborators : Collaborators World string (option string) := {|
  shipper_util_QueryKey := table_hash_key;
  tenant_TenantID ctx :=
    match ctx with
    | Some id => inl id
    | None => inr (External "no org id")
    end;
  util_TokenFor _ _ := 0;
  ring_Get _ _ w := (w_ring w, w);
  rand_Shuffle addrs w := (addrs, w);
  pool_GetClientFor addr w := (w_pool w addr, w);
  QueryIndex client _ _ w := (w_server w client, w);
  concurrency_ForEachJob := ForEachJob_one_worker
|}.

(** Callbacks: one that always continues, one that always stops. *)
Definition cb_continue : QueryPagesCallback World :=
  fun _ _ w => (true, count_call w).
Definition cb_stop : QueryPagesCallback World :=
  fun _ _ w => (false, count_call w).

Definition q1 : Query :=
  {| TableName := "t"; HashValue := "h1"; RangeValuePrefix := [];
     RangeValueStart := []; ValueEqual := [] |}.
Definition q2 : Query :=
  {| TableName := "t"; HashValue := "h2"; RangeValuePrefix := [x01];
     RangeValueStart := []; ValueEqual := [] |}.
(** Same table and hash as [q1], another range prefix: its key collides
    with the key of [q1] under [table_hash_key]. *)
Definition q1' : Query :=
  {| TableName := "t"; HashValue := "h1"; RangeValuePrefix := [x02];
     RangeValueStart := []; ValueEqual := [] |}.

Definition row_a : Row := {| RangeValue := [x0a]; Value := [x0b] |}.
Definition row_b : Row := {| RangeValue := [x0c]; Value := [x0d] |}.

Definition resp1 : QueryIndexResponse := {| QueryKey := "t:h1"; Rows := [row_a; row_b] |}.
Definition resp2 : QueryIndexResponse := {| QueryKey := "t:h2"; Rows := [row_b] |}.
Definition resp_unknown : QueryIndexResponse := {| QueryKey := "t:zz"; Rows := [row_a] |}.

Definition simple_client : GatewayClient string :=
  {| cfg_Mode := SimpleMode; grpcClient := "gw" |}.
Definition ring_client : GatewayClient string :=
  {| cfg_Mode := RingMode; grpcClient := "" |}.

(** A server that answers every client with the stream [st]. *)
Definition world_serving (st : ServerStream + error) : World :=
  {| w_ring := inl {| Instances := [ {| Addr := "A" |}; {| Addr := "B" |};
                                     {| Addr := "C" |} ] |};
     w_pool := fun a => inl a;
     w_server := fun _ => st;
     w_calls := 0 |}.

(** Three replicas: no connection to A, B breaks the stream after one
    response, C serves both responses. *)
Definition world_failover : World :=
  {| w_ring := inl {| Instances := [ {| Addr := "A" |}; {| Addr := "B" |};
                                     {| Addr := "C" |} ] |};
     w_pool := fun a => if String.eqb a "A" then inr (External "dial") else inl a;
     w_server := fun c =>
       if String.eqb c "B"
       then inl {| stream_msgs := [resp1]; stream_status := Some (External "reset") |}
       else inl {| stream_msgs := [resp1; resp2]; stream_status := None |};
     w_calls := 0 |}.

(** No replica can be reached. *)
Definition world_down : World :=
  {| w_ring := inl {| Instances := [ {| Addr := "A" |}; {| Addr := "B" |} ] |};
     w_pool := fun a => inr (External "dial");
     w_server := fun _ => inr (External "unavailable");
     w_calls := 0 |}.

(** The ring cannot resolve the tenant. *)
Definition world_no_ring : World :=
  {| w_ring := inr (External "too many unhealthy instances");
     w_pool := fun a => inl a;
     w_server := fun _ => inl {| stream_msgs := []; stream_status := None |};
     w_calls := 0 |}.

End Demo.

(** * Properties *)

(** ** Integers and slices *)

Lemma wrap64_id (x : Z) : min_int <= x <= max_int -> wrap64 x = x.
Proof.
  unfold wrap64, min_int, max_int. intros Hx.
  rewrite Z.mod_small by lia. lia.
Qed.

Lemma len_nonneg {A} (s : list A) : 0 <= len s.
Proof. unfold len. lia. Qed.

Lemma go_slice_in_range {A} (s : list A) (lo hi : Z) :
  0 <= lo <= hi -> hi <= len s ->
  go_slice s lo hi = Returned (take (Z.to_nat (hi - lo)) (drop (Z.to_nat lo) s)).
Proof.
  intros [Hlo Hhi] Hlen. unfold go_slice.
  rewrite (proj2 (Z.leb_le 0 lo)), (proj2 (Z.leb_le lo hi)),
    (proj2 (Z.leb_le hi (len s))); auto.
Qed.

Lemma go_index_lookup {A} (s : list A) (n : nat) (a : A) :
  s !! n = Some a -> go_index s (Z.of_nat n) = Returned a.
Proof.
  intros Hn. unfold go_index, len.
  pose proof (lookup_lt_Some _ _ _ Hn) as Hlt.
  rewrite (proj2 (Z.leb_le 0 (Z.of_nat n))) by lia.
  rewrite (proj2 (Z.ltb_lt (Z.of_nat n) (Z.of_nat (length s)))) by lia.
  simpl. rewrite Nat2Z.id, Hn. reflexivity.
Qed.

Lemma go_index_negative {A} (s : list A) (i : Z) :
  i < 0 -> go_index s i = Panicked "index out of range".
Proof.
  intros Hi. unfold go_index.
  rewrite (proj2 (Z.leb_gt 0 i)) by lia. reflexivity.
Qed.

(** ** The row cursor *)

Lemma after_Next_response (k : nat) (b : grpcIter) :
  it_QueryIndexResponse (after_Next k b) = it_QueryIndexResponse b.
Proof.
  revert b. induction k as [|k IH]; intros b; simpl; [reflexivity|].
  rewrite IH. reflexivity.
Qed.

Lemma after_Next_position (k : nat) (b : grpcIter) :
  min_int <= i b -> i b + Z.of_nat k <= max_int ->
  i (after_Next k b) = i b + Z.of_nat k.
Proof.
  revert b. induction k as [|k IH]; intros b Hlo Hhi; simpl after_Next.
  - lia.
  - rewrite IH; simpl i; rewrite wrap64_id by lia; lia.
Qed.

Lemma after_Next_snoc (k : nat) (b : grpcIter) :
  after_Next (S k) b = snd (Next (after_Next k b)).
Proof.
  revert b. induction k as [|k IH]; intros b; [reflexivity|].
  change (after_Next (S (S k)) b) with (after_Next (S k) (snd (Next b))).
  rewrite IH. reflexivity.
Qed.

(** C8. An iterator made from a read batch over [n] rows starts before the
    first row (position -1, where reading a row is not possible); after [k]
    calls of [Next] it stands at position [k - 1], so it only moves forward,
    over the same rows; the [k]-th call returns true exactly when [k <= n],
    hence never again once it has returned false; on row [k - 1] the
    accessors return that row's range value and value; and [Iterator]
    always starts a fresh cursor at the beginning.  The count of calls is
    within the range of a Go [int]. *)
Theorem readBatch_iterator_forward_only (r : readBatch) (k : nat) :
  Z.of_nat k <= 2 ^ 63 ->
  let rows := Rows (rb_QueryIndexResponse r) in
  let it := after_Next k (Iterator r) in
  i (Iterator r) = -1
  /\ iter_RangeValue (Iterator r) = Panicked "index out of range"
  /\ iter_Value (Iterator r) = Panicked "index out of range"
  /\ i it = Z.of_nat k - 1
  /\ it_QueryIndexResponse it = rb_QueryIndexResponse r
  /\ ((1 <= k)%nat -> nth_Next k (Iterator r) = bool_decide (k <= length rows)%nat)
  /\ (forall row, (1 <= k)%nat -> rows !! (k - 1)%nat = Some row ->
        iter_RangeValue it = Returned (RangeValue row)
        /\ iter_Value it = Returned (Value row)).
Proof.
  intros Hk rows it.
  assert (Hpos : forall j : nat, Z.of_nat j <= 2 ^ 63 ->
            i (after_Next j (Iterator r)) = Z.of_nat j - 1).
  { intros j Hj. rewrite after_Next_position; simpl; unfold min_int, max_int; lia. }
  assert (Hresp : it_QueryIndexResponse it = rb_QueryIndexResponse r)
    by (unfold it; rewrite after_Next_response; reflexivity).
  split; [reflexivity|].
  split; [unfold iter_RangeValue; rewrite go_index_negative; simpl; [reflexivity|lia]|].
  split; [unfold iter_Value; rewrite go_index_negative; simpl; [reflexivity|lia]|].
  split; [apply Hpos, Hk|].
  split; [exact Hresp|].
  split.
  - intros H1. destruct k as [|k]; [lia|].
    unfold nth_Next. simpl Nat.pred.
    change (fst (Next (after_Next k (Iterator r))))
      with (i (snd (Next (after_Next k (Iterator r))))
            <? len (Rows (it_QueryIndexResponse (after_Next k (Iterator r))))).
    rewrite <- after_Next_snoc, Hpos by exact Hk.
    rewrite after_Next_response. simpl it_QueryIndexResponse. fold rows.
    unfold len. case_bool_decide as Hd.
    + apply Z.ltb_lt. lia.
    + apply Z.ltb_ge. lia.
  - intros row H1 Hrow.
    unfold iter_RangeValue, iter_Value. rewrite Hresp. fold rows.
    unfold it. rewrite Hpos by exact Hk.
    replace (Z.of_nat k - 1) with (Z.of_nat (k - 1)) by lia.
    rewrite (go_index_lookup _ _ _ Hrow). split; reflexivity.
Qed.

Lemma readBatch_iterator_forward_only_witness :
  Z.of_nat 3 <= 2 ^ 63
  /\ nth_Next 3 (Iterator {| rb_QueryIndexResponse := Demo.resp1 |}) = false
  /\ nth_Next 2 (Iterator {| rb_QueryIndexResponse := Demo.resp1 |}) = true
  /\ iter_Value (after_Next 2 (Iterator {| rb_QueryIndexResponse := Demo.resp1 |}))
     = Returned (Value Demo.row_b).
Proof.
  assert (H3 : Z.of_nat 3 <= 2 ^ 63) by (vm_compute; discriminate).
  assert (H2 : Z.of_nat 2 <= 2 ^ 63) by (vm_compute; discriminate).
  split; [exact H3|].
  pose proof (readBatch_iterator_forward_only
                {| rb_QueryIndexResponse := Demo.resp1 |} 3 H3) as P3.
  pose proof (readBatch_iterator_forward_only
                {| rb_QueryIndexResponse := Demo.resp1 |} 2 H2) as P2.
  simpl in P3, P2.
  destruct P3 as (_ & _ & _ & _ & _ & N3 & _).
  destruct P2 as (_ & _ & _ & _ & _ & N2 & V2).
  split; [rewrite N3 by lia; reflexivity|].
  split; [rewrite N2 by lia; reflexivity|].
  apply (V2 Demo.row_b); [lia|reflexivity].
Defined.

(** ** The write path *)

(** C9. Both write-path entry points panic with "unsupported" on every
    input: they never return a value, touch no collaborator and emit no
    event. *)
Theorem write_path_unsupported {Ext Client context WriteBatch : Type}
    (s : GatewayClient Client) (ctx : context) (batch : WriteBatch) (x : Ext) :
  @NewWriteBatch Client WriteBatch s = Panicked "unsupported"
  /\ BatchWrite (Ext:=Ext) s ctx batch x = (Panicked "unsupported", x, [])
  /\ (forall b : WriteBatch, @NewWriteBatch Client WriteBatch s <> Returned b)
  /\ (forall e : option error,
        fst (fst (BatchWrite (Ext:=Ext) s ctx batch x)) <> Returned e).
Proof.
  split; [reflexivity|]. split; [reflexivity|].
  split; intros ?; discriminate.
Qed.

(** ** Stream consumption *)

Section StreamConsumption.
Context {Ext Client context : Type} `{!Collaborators Ext Client context}.
Implicit Types (x : Ext) (m : gmap string Query) (resp : QueryIndexResponse)
  (callback : QueryPagesCallback Ext) (t : list (event Client))
  (r : outcome (option error)).

Lemma recv_loop_eof m callback x :
  recv_loop (Client:=Client) [] None m callback x
  = (Returned None, x, [EvRecv RecvEOF]).
Proof. reflexivity. Qed.

Lemma recv_loop_error err m callback x :
  recv_loop (Client:=Client) [] (Some err) m callback x
  = (Returned (Some (WithStack err)), x, [EvRecv (RecvErr err)]).
Proof. reflexivity. Qed.

Lemma recv_loop_unknown resp rest status m callback x :
  m !! QueryKey resp = None ->
  recv_loop (Client:=Client) (resp :: rest) status m callback x
  = (Returned (Some (unexpected_key_error (QueryKey resp))), x,
     [EvRecv (RecvMsg resp); EvLog (LogUnexpectedQueryKey (QueryKey resp) m)]).
Proof.
  intros Hm. simpl. unfold bind, emit. rewrite Hm. reflexivity.
Qed.

Lemma recv_loop_stop resp rest status m callback x query x1 :
  m !! QueryKey resp = Some query ->
  callback query {| rb_QueryIndexResponse := resp |} x = (false, x1) ->
  recv_loop (Client:=Client) (resp :: rest) status m callback x
  = (Returned None, x1,
     [EvRecv (RecvMsg resp);
      EvCallback query {| rb_QueryIndexResponse := resp |} false]).
Proof.
  intros Hm Hcb. simpl. unfold bind, emit, extern. rewrite Hm, Hcb.
  reflexivity.
Qed.

Lemma recv_loop_continue resp rest status m callback x query x1 r x2 t :
  m !! QueryKey resp = Some query ->
  callback query {| rb_QueryIndexResponse := resp |} x = (true, x1) ->
  recv_loop (Client:=Client) rest status m callback x1 = (r, x2, t) ->
  recv_loop (Client:=Client) (resp :: rest) status m callback x
  = (r, x2,
     EvRecv (RecvMsg resp)
       :: EvCallback query {| rb_QueryIndexResponse := resp |} true :: t).
Proof.
  intros Hm Hcb Hrest. simpl. unfold bind, emit, extern. rewrite Hm, Hcb.
  cbn -[recv_loop]. rewrite Hrest. destruct r; reflexivity.
Qed.

(** Case analysis on one turn of the loop, with the run of the remaining
    turns named. *)
Ltac recv_loop_step resp rest status m callback x :=
  let q := fresh "query" in
  let Hm := fresh "Hm" in
  let c := fresh "continue" in
  let x1 := fresh "x1" in
  let Hcb := fresh "Hcb" in
  destruct (m !! QueryKey resp) as [q|] eqn:Hm;
  [ destruct (callback q {| rb_QueryIndexResponse := resp |} x) as [c x1] eqn:Hcb;
    destruct c;
    [ let r' := fresh "r'" in
      let x2 := fresh "x2" in
      let t' := fresh "t'" in
      let Hrest := fresh "Hrest" in
      destruct (recv_loop (Client:=Client) rest status m callback x1)
        as [[r' x2] t'] eqn:Hrest;
      rewrite (recv_loop_continue _ _ _ _ _ _ _ _ _ _ _ Hm Hcb Hrest)
    | rewrite (recv_loop_stop _ rest status _ _ _ _ _ Hm Hcb) ]
  | rewrite (recv_loop_unknown _ rest status _ callback x Hm) ].

Lemma recv_loop_returns msgs status m callback x :
  exists e, fst (fst (recv_loop (Client:=Client) msgs status m callback x))
            = Returned e.
Proof.
  revert x. induction msgs as [|resp rest IH]; intros x.
  - destruct status; simpl; eauto.
  - recv_loop_step resp rest status m callback x; simpl; eauto.
    specialize (IH x1). rewrite Hrest in IH. exact IH.
Qed.

Lemma recv_loop_emitted gq msgs status m callback x :
  Forall (emitted_for gq m)
         (snd (recv_loop (Client:=Client) msgs status m callback x)).
Proof.
  revert x. induction msgs as [|resp rest IH]; intros x.
  - destruct status; simpl; repeat constructor.
  - recv_loop_step resp rest status m callback x; simpl.
    + specialize (IH x1). rewrite Hrest in IH.
      repeat (constructor; simpl; try done).
    + repeat (constructor; simpl; try done).
    + repeat (constructor; simpl; try done).
Qed.

Lemma recv_loop_quiet msgs status m callback x :
  let t := snd (recv_loop (Client:=Client) msgs status m callback x) in
  rpc_requests t = [] /\ contacted t = [] /\ logged_failures t = [].
Proof.
  revert x. induction msgs as [|resp rest IH]; intros x.
  - destruct status; simpl; auto.
  - recv_loop_step resp rest status m callback x; simpl; auto.
    specialize (IH x1). rewrite Hrest in IH. exact IH.
Qed.

Lemma recv_loop_unknown_key_ends msgs status m callback x t1 resp t2 :
  snd (recv_loop (Client:=Client) msgs status m callback x)
    = t1 ++ EvRecv (RecvMsg resp) :: t2 ->
  m !! QueryKey resp = None ->
  t2 = [EvLog (LogUnexpectedQueryKey (QueryKey resp) m)]
  /\ fst (fst (recv_loop (Client:=Client) msgs status m callback x))
     = Returned (Some (unexpected_key_error (QueryKey resp))).
Proof.
  revert x t1. induction msgs as [|resp0 rest IH]; intros x t1 Ht Hnone.
  - destruct status; simpl in Ht;
      destruct t1 as [|? [|? ?]]; simplify_eq.
  - revert Ht. recv_loop_step resp0 rest status m callback x; simpl; intros Ht.
    + destruct t1 as [|e1 [|e2 t1]]; simplify_eq/=.
      specialize (IH x1 t1). rewrite Hrest in IH. simpl in IH. apply IH; done.
    + destruct t1 as [|e1 [|e2 [|? ?]]]; simplify_eq/=.
    + destruct t1 as [|e1 [|e2 [|? ?]]]; simplify_eq/=. done.
Qed.

Lemma recv_loop_stop_ends msgs status m callback x t1 query batch t2 :
  snd (recv_loop (Client:=Client) msgs status m callback x)
    = t1 ++ EvCallback query batch false :: t2 ->
  t2 = []
  /\ fst (fst (recv_loop (Client:=Client) msgs status m callback x))
     = Returned None.
Proof.
  revert x t1. induction msgs as [|resp0 rest IH]; intros x t1 Ht.
  - destruct status; simpl in Ht;
      destruct t1 as [|? [|? ?]]; simplify_eq.
  - revert Ht. recv_loop_step resp0 rest status m callback x; simpl; intros Ht.
    + destruct t1 as [|e1 [|e2 t1]]; simplify_eq/=.
      specialize (IH x1 t1). rewrite Hrest in IH. simpl in IH. apply IH; done.
    + destruct t1 as [|e1 [|e2 [|? ?]]]; simplify_eq/=. done.
    + destruct t1 as [|e1 [|e2 [|? ?]]]; simplify_eq/=.
Qed.

(** *** One RPC call *)

Lemma clientDoQueries_rpc_error ctx gq m callback client x err x1 :
  QueryIndex client ctx {| Queries := gq |} x = (inr err, x1) ->
  clientDoQueries ctx gq m callback client x
  = (Returned (Some (Wrap err "query index")), x1,
     [EvQueryIndex client {| Queries := gq |}]).
Proof.
  intros Hq. unfold clientDoQueries, bind, extern. rewrite Hq. reflexivity.
Qed.

Lemma clientDoQueries_stream ctx gq m callback client x streamer x1 :
  QueryIndex client ctx {| Queries := gq |} x = (inl streamer, x1) ->
  clientDoQueries ctx gq m callback client x
  = let run := recv_loop (stream_msgs streamer) (stream_status streamer)
                         m callback x1 in
    (fst (fst run), snd (fst run),
     EvQueryIndex client {| Queries := gq |} :: snd run).
Proof.
  intros Hq. unfold clientDoQueries, bind, extern. rewrite Hq.
  cbn -[recv_loop].
  destruct (recv_loop _ _ _ _ _) as [[r x2] t]. reflexivity.
Qed.

(** The events of a call of [clientDoQueries]: the RPC call, then those of
    the stream if one was opened. *)
Lemma clientDoQueries_events ctx gq m callback client x :
  exists t,
    snd (clientDoQueries ctx gq m callback client x)
      = EvQueryIndex client {| Queries := gq |} :: t
    /\ Forall (emitted_for gq m) t
    /\ rpc_requests t = [] /\ contacted t = [] /\ logged_failures t = []
    /\ (forall t1 resp t2, t = t1 ++ EvRecv (RecvMsg resp) :: t2 ->
          m !! QueryKey resp = None ->
          t2 = [EvLog (LogUnexpectedQueryKey (QueryKey resp) m)]
          /\ fst (fst (clientDoQueries ctx gq m callback client x))
             = Returned (Some (unexpected_key_error (QueryKey resp))))
    /\ (forall t1 query batch t2, t = t1 ++ EvCallback query batch false :: t2 ->
          t2 = []
          /\ fst (fst (clientDoQueries ctx gq m callback client x))
             = Returned None).
Proof.
  destruct (QueryIndex client ctx {| Queries := gq |} x) as [[streamer|err] x1] eqn:Hq.
  - rewrite (clientDoQueries_stream _ _ _ _ _ _ _ _ Hq). cbn -[recv_loop].
    eexists. split; [reflexivity|].
    split; [apply recv_loop_emitted|].
    pose proof (recv_loop_quiet (stream_msgs streamer) (stream_status streamer)
                  m callback x1) as (Hr & Hc & Hl).
    repeat split; try assumption.
    + eapply recv_loop_unknown_key_ends; eassumption.
    + eapply recv_loop_unknown_key_ends; eassumption.
    + eapply recv_loop_stop_ends; eassumption.
    + eapply recv_loop_stop_ends; eassumption.
  - rewrite (clientDoQueries_rpc_error _ _ _ _ _ _ _ _ Hq). simpl.
    exists []. repeat split; try constructor;
      intros; destruct t1; simplify_eq.
Qed.

Lemma clientDoQueries_returns ctx gq m callback client x :
  exists e, fst (fst (clientDoQueries ctx gq m callback client x)) = Returned e.
Proof.
  destruct (QueryIndex client ctx {| Queries := gq |} x) as [[streamer|err] x1] eqn:Hq.
  - rewrite (clientDoQueries_stream _ _ _ _ _ _ _ _ Hq). cbn -[recv_loop].
    apply recv_loop_returns.
  - rewrite (clientDoQueries_rpc_error _ _ _ _ _ _ _ _ Hq). simpl. eauto.
Qed.

(** *** What reaches the callback *)

Lemma recv_loop_delivery msgs status m callback x :
  let t := snd (recv_loop (Client:=Client) msgs status m callback x) in
  exists k k' : nat,
    (k <= k' <= S k)%nat /\ (k' <= length msgs)%nat
    /\ received t = take k' msgs
    /\ Forall2 (fun resp cb => delivery m resp = Some cb)
         (take k msgs) (callbacks t).
Proof.
  cbn zeta. revert x. induction msgs as [|resp rest IH]; intros x.
  - exists 0%nat, 0%nat. destruct status; simpl; repeat split; auto; constructor.
  - recv_loop_step resp rest status m callback x; cbn [fst snd].
    + destruct (IH x1) as (k & k' & Hk & Hk' & Hrecv & Hall).
      rewrite Hrest in Hrecv, Hall. cbn [snd] in Hrecv, Hall.
      exists (S k), (S k'). split; [lia|]. split; [simpl; lia|]. split.
      * change (received (EvRecv (RecvMsg resp)
                  :: EvCallback query {| rb_QueryIndexResponse := resp |} true :: t'))
          with (resp :: received t').
        rewrite Hrecv. reflexivity.
      * change (callbacks (EvRecv (RecvMsg resp)
                  :: EvCallback query {| rb_QueryIndexResponse := resp |} true :: t'))
          with ((query, {| rb_QueryIndexResponse := resp |}) :: callbacks t').
        simpl take. constructor; [|exact Hall].
        unfold delivery. rewrite Hm. reflexivity.
    + exists 1%nat, 1%nat. split; [lia|]. split; [simpl; lia|]. split.
      * simpl. rewrite take_0. reflexivity.
      * change (callbacks [EvRecv (RecvMsg resp);
                  EvCallback query {| rb_QueryIndexResponse := resp |} false])
          with [(query, {| rb_QueryIndexResponse := resp |})].
        simpl take. rewrite take_0. constructor; [|constructor].
        unfold delivery. rewrite Hm. reflexivity.
    + exists 0%nat, 1%nat. split; [lia|]. split; [simpl; lia|]. split.
      * simpl. rewrite take_0. reflexivity.
      * constructor.
Qed.

Lemma recv_loop_full_delivery msgs status m callback x :
  Forall (fun resp => is_Some (m !! QueryKey resp)) msgs ->
  (forall query batch x', fst (callback query batch x') = true) ->
  let run := recv_loop (Client:=Client) msgs status m callback x in
  fst (fst run) = Returned (WithStack <$> status)
  /\ received (snd run) = msgs
  /\ Forall2 (fun resp cb => delivery m resp = Some cb) msgs (callbacks (snd run)).
Proof.
  intros Hknown Hcont. cbn zeta. revert x.
  induction Hknown as [|resp rest [query0 Hq0] Hrest' IH]; intros x.
  - destruct status; simpl; repeat split; constructor.
  - recv_loop_step resp rest status m callback x; cbn [fst snd].
    + destruct (IH x1) as (Hres & Hrecv & Hall).
      rewrite Hrest in Hres, Hrecv, Hall. cbn [fst snd] in Hres, Hrecv, Hall.
      split; [exact Hres|]. split.
      * change (received (EvRecv (RecvMsg resp)
                  :: EvCallback query {| rb_QueryIndexResponse := resp |} true :: t'))
          with (resp :: received t').
        rewrite Hrecv. reflexivity.
      * change (callbacks (EvRecv (RecvMsg resp)
                  :: EvCallback query {| rb_QueryIndexResponse := resp |} true :: t'))
          with ((query, {| rb_QueryIndexResponse := resp |}) :: callbacks t').
        constructor; [|exact Hall]. unfold delivery. rewrite Hm. reflexivity.
    + specialize (Hcont query {| rb_QueryIndexResponse := resp |} x).
      rewrite Hcb in Hcont. discriminate.
    + rewrite Hq0 in Hm. discriminate.
Qed.


Lemma recv_loop_no_ring_lookup msgs status m callback x :
  ring_lookups (snd (recv_loop (Client:=Client) msgs status m callback x)) = [].
Proof.
  revert x. induction msgs as [|resp rest IH]; intros x.
  - destruct status; reflexivity.
  - recv_loop_step resp rest status m callback x; cbn [fst snd]; try reflexivity.
    specialize (IH x1). rewrite Hrest in IH. exact IH.
Qed.

End StreamConsumption.

Section StreamClaims.
Context {Ext Client context : Type} `{!Collaborators Ext Client context}.

(** C3. In the events of a call of [clientDoQueries], a received response
    whose key is not in the call's key map is followed by the error log
    record only: the callback is not invoked for it, nothing more is
    received, and the call returns the unexpected-key error. *)
Theorem unknown_key_is_fatal (ctx : context) (gq : list IndexQuery)
    (m : gmap string Query) (callback : QueryPagesCallback Ext)
    (client : Client) (x : Ext)
    (t1 : list (event Client)) (resp : QueryIndexResponse)
    (t2 : list (event Client)) :
  snd (clientDoQueries ctx gq m callback client x)
    = t1 ++ EvRecv (RecvMsg resp) :: t2 ->
  m !! QueryKey resp = None ->
  fst (fst (clientDoQueries ctx gq m callback client x))
    = Returned (Some (unexpected_key_error (QueryKey resp)))
  /\ t2 = [EvLog (LogUnexpectedQueryKey (QueryKey resp) m)]
  /\ callbacks t2 = []
  /\ callbacks (t1 ++ EvRecv (RecvMsg resp) :: t2) = callbacks t1.
Proof.
  intros Ht Hnone.
  destruct (clientDoQueries_events ctx gq m callback client x)
    as (t & Hev & _ & _ & _ & _ & Hunknown & _).
  rewrite Hev in Ht. destruct t1 as [|e1 t1]; simplify_eq/=.
  destruct (Hunknown t1 resp t2 eq_refl Hnone) as [-> Hres].
  split; [exact Hres|]. split; [reflexivity|]. split; [reflexivity|].
  unfold callbacks. rewrite !omap_app. simpl. rewrite app_nil_r. reflexivity.
Qed.

(** C4. In the events of a call of [clientDoQueries], a callback invocation
    that returned false is the last event: nothing more is received, no
    later response reaches the callback, and the call returns nil. *)
Theorem callback_stop_is_success (ctx : context) (gq : list IndexQuery)
    (m : gmap string Query) (callback : QueryPagesCallback Ext)
    (client : Client) (x : Ext)
    (t1 : list (event Client)) (query : Query) (batch : readBatch)
    (t2 : list (event Client)) :
  snd (clientDoQueries ctx gq m callback client x)
    = t1 ++ EvCallback query batch false :: t2 ->
  fst (fst (clientDoQueries ctx gq m callback client x)) = Returned None
  /\ t2 = [].
Proof.
  intros Ht.
  destruct (clientDoQueries_events ctx gq m callback client x)
    as (t & Hev & _ & _ & _ & _ & _ & Hstop).
  rewrite Hev in Ht. destruct t1 as [|e1 t1]; simplify_eq/=.
  destruct (Hstop t1 query batch t2 eq_refl) as [-> Hres]. auto.
Qed.

End StreamClaims.

Lemma unknown_key_is_fatal_witness :
  let m := fst (@doQueries_build _ _ _ Demo.collaborators [Demo.q1; Demo.q2]) in
  let world := Demo.world_serving
    (inl {| stream_msgs := [Demo.resp1; Demo.resp_unknown; Demo.resp2];
            stream_status := None |}) in
  let run := clientDoQueries (Some "u") [] m Demo.cb_continue "gw" world in
  m !! QueryKey Demo.resp_unknown = None
  /\ fst (fst run) = Returned (Some (unexpected_key_error "t:zz"))
  /\ callbacks (snd run)
     = [(Demo.q1, {| rb_QueryIndexResponse := Demo.resp1 |})].
Proof.
  intros m world run.
  assert (Hnone : m !! QueryKey Demo.resp_unknown = None) by reflexivity.
  split; [exact Hnone|].
  pose proof (unknown_key_is_fatal (Some "u") [] m Demo.cb_continue "gw" world
    [EvQueryIndex "gw" {| Queries := [] |};
     EvRecv (RecvMsg Demo.resp1);
     EvCallback Demo.q1 {| rb_QueryIndexResponse := Demo.resp1 |} true]
    Demo.resp_unknown
    [EvLog (LogUnexpectedQueryKey "t:zz" m)] eq_refl Hnone) as (Hres & _).
  split; [exact Hres|reflexivity].
Defined.

Lemma callback_stop_is_success_witness :
  let m := fst (@doQueries_build _ _ _ Demo.collaborators [Demo.q1; Demo.q2]) in
  let world := Demo.world_serving
    (inl {| stream_msgs := [Demo.resp1; Demo.resp2];
            stream_status := Some (External "reset") |}) in
  let run := clientDoQueries (Some "u") [] m Demo.cb_stop "gw" world in
  fst (fst run) = Returned None
  /\ callbacks (snd run)
     = [(Demo.q1, {| rb_QueryIndexResponse := Demo.resp1 |})].
Proof.
  intros m world run.
  pose proof (callback_stop_is_success (Some "u") [] m Demo.cb_stop "gw" world
    [EvQueryIndex "gw" {| Queries := [] |}; EvRecv (RecvMsg Demo.resp1)]
    Demo.q1 {| rb_QueryIndexResponse := Demo.resp1 |} [] eq_refl) as (Hres & _).
  split; [exact Hres|reflexivity].
Defined.

(** ** Ring mode *)

Section RingMode.
Context {Ext Client context : Type} `{!Collaborators Ext Client context}.
Implicit Types (x : Ext) (m : gmap string Query) (gq : list IndexQuery)
  (callback : QueryPagesCallback Ext) (t : list (event Client))
  (addrs : list string) (ctx : context).

Lemma replica_loop_nil ctx gq m callback x :
  replica_loop (Client:=Client) [] ctx gq m callback x
  = (Returned (Some no_replica_error), x, []).
Proof. reflexivity. Qed.

Lemma replica_loop_no_client addr rest ctx gq m callback x err x1 :
  pool_GetClientFor addr x = (inr err, x1) ->
  replica_loop (addr :: rest) ctx gq m callback x
  = let run := replica_loop rest ctx gq m callback x1 in
    (fst (fst run), snd (fst run),
     EvGetClientFor addr :: EvLog (LogGetClientFailed addr err) :: snd run).
Proof.
  intros Hp. simpl. unfold bind, extern, emit. rewrite Hp.
  cbn -[replica_loop].
  destruct (replica_loop rest ctx gq m callback x1) as [[r x2] t].
  cbn. reflexivity.
Qed.

Lemma replica_loop_call_failed addr rest ctx gq m callback x client x1 err x2 tq :
  pool_GetClientFor addr x = (inl client, x1) ->
  clientDoQueries ctx gq m callback client x1 = (Returned (Some err), x2, tq) ->
  replica_loop (addr :: rest) ctx gq m callback x
  = let run := replica_loop rest ctx gq m callback x2 in
    (fst (fst run), snd (fst run),
     EvGetClientFor addr
       :: tq ++ EvLog (LogClientDoQueriesFailed addr err) :: snd run).
Proof.
  intros Hp Hq. simpl. unfold bind at 1. unfold extern. rewrite Hp.
  cbn -[replica_loop clientDoQueries]. unfold bind at 1. rewrite Hq.
  cbn -[replica_loop clientDoQueries]. unfold bind, emit.
  destruct (replica_loop rest ctx gq m callback x2) as [[r x3] t].
  cbn. reflexivity.
Qed.

Lemma replica_loop_call_ok addr rest ctx gq m callback x client x1 x2 tq :
  pool_GetClientFor addr x = (inl client, x1) ->
  clientDoQueries ctx gq m callback client x1 = (Returned None, x2, tq) ->
  replica_loop (addr :: rest) ctx gq m callback x
  = (Returned None, x2, EvGetClientFor addr :: tq).
Proof.
  intros Hp Hq. simpl. unfold bind at 1. unfold extern. rewrite Hp.
  cbn -[replica_loop clientDoQueries]. unfold bind at 1. rewrite Hq.
  cbn. rewrite app_nil_r. reflexivity.
Qed.

Lemma clientDoQueries_quiet ctx gq m callback client x :
  contacted (snd (clientDoQueries ctx gq m callback client x)) = []
  /\ logged_failures (snd (clientDoQueries ctx gq m callback client x)) = [].
Proof.
  destruct (clientDoQueries_events ctx gq m callback client x)
    as (t & Hev & _ & _ & Hc & Hl & _).
  rewrite Hev. simpl. auto.
Qed.

(** Case analysis on one turn of the replica loop. *)
Ltac replica_loop_step addr rest ctx gq m callback x :=
  let client := fresh "client" in
  let err := fresh "err" in
  let x1 := fresh "x1" in
  let Hp := fresh "Hp" in
  destruct (pool_GetClientFor addr x) as [[client|err] x1] eqn:Hp;
  [ let e := fresh "e" in
    let x2 := fresh "x2" in
    let tq := fresh "tq" in
    let Hq := fresh "Hq" in
    let Hret := fresh "Hret" in
    destruct (clientDoQueries ctx gq m callback client x1) as [[[e|?] x2] tq] eqn:Hq;
    [ destruct e as [err|];
      [ rewrite (replica_loop_call_failed _ rest _ _ _ _ _ _ _ _ _ _ Hp Hq)
      | rewrite (replica_loop_call_ok _ rest _ _ _ _ _ _ _ _ _ Hp Hq) ]
    | destruct (clientDoQueries_returns ctx gq m callback client x1) as [? Hret];
      rewrite Hq in Hret; discriminate Hret ]
  | rewrite (replica_loop_no_client _ rest _ _ _ _ _ _ _ Hp) ].

(** C2. The replica loop over the shuffled address list [addrs] asks for
    connection handles in list order, each address at most once.  Every
    address whose connection or streaming call failed is logged and the
    next one is tried.  Either the call returns nil: then the addresses
    logged as failed are a prefix of [addrs], the address [a] right after
    them is the last one contacted, and the events end with a successful
    connection to [a] followed by a call of [clientDoQueries] that returned
    nil; or every address of [addrs] was contacted and logged as failed,
    once each and in order, and the call returns the error kept for this
    case.  At the first address: a failed connection or a failed streaming
    call is logged and the loop goes on with the rest of the list from the
    state the failure left; a successful streaming call ends the loop with
    nil, whatever the rest of the list is. *)
Theorem ring_failover_first_success (addrs : list string) (ctx : context)
    (gq : list IndexQuery) (m : gmap string Query)
    (callback : QueryPagesCallback Ext) (x : Ext) :
  let run := replica_loop addrs ctx gq m callback x in
  let t := snd run in
  ((fst (fst run) = Returned None
   /\ exists a post t0 x0 client x1 tq,
        addrs = logged_failures t ++ a :: post
        /\ contacted t = logged_failures t ++ [a]
        /\ t = t0 ++ EvGetClientFor a :: tq
        /\ logged_failures t0 = logged_failures t
        /\ pool_GetClientFor a x0 = (inl client, x1)
        /\ clientDoQueries ctx gq m callback client x1
           = (Returned None, snd (fst run), tq))
  \/ (fst (fst run) = Returned (Some no_replica_error)
      /\ logged_failures t = addrs
      /\ contacted t = addrs))
  /\ (forall addr rest, addrs = addr :: rest ->
        (forall err x1,
           pool_GetClientFor addr x = (inr err, x1) ->
           run = (fst (fst (replica_loop rest ctx gq m callback x1)),
                  snd (fst (replica_loop rest ctx gq m callback x1)),
                  EvGetClientFor addr :: EvLog (LogGetClientFailed addr err)
                    :: snd (replica_loop rest ctx gq m callback x1)))
        /\ (forall client x1 err x2 tq,
              pool_GetClientFor addr x = (inl client, x1) ->
              clientDoQueries ctx gq m callback client x1
                = (Returned (Some err), x2, tq) ->
              run = (fst (fst (replica_loop rest ctx gq m callback x2)),
                     snd (fst (replica_loop rest ctx gq m callback x2)),
                     EvGetClientFor addr
                       :: tq ++ EvLog (LogClientDoQueriesFailed addr err)
                       :: snd (replica_loop rest ctx gq m callback x2)))
        /\ (forall client x1 x2 tq,
              pool_GetClientFor addr x = (inl client, x1) ->
              clientDoQueries ctx gq m callback client x1
                = (Returned None, x2, tq) ->
              run = (Returned None, x2, EvGetClientFor addr :: tq))).
Proof.
  cbn zeta. split; cycle 1.
  { intros addr rest ->. split; [|split].
    - intros err x1 Hp. apply (replica_loop_no_client _ _ _ _ _ _ _ _ _ Hp).
    - intros client x1 err x2 tq Hp Hq.
      apply (replica_loop_call_failed _ _ _ _ _ _ _ _ _ _ _ _ Hp Hq).
    - intros client x1 x2 tq Hp Hq.
      apply (replica_loop_call_ok _ _ _ _ _ _ _ _ _ _ _ Hp Hq). }
  revert x. induction addrs as [|addr rest IH]; intros x.
  - right. rewrite replica_loop_nil. simpl. auto.
  - replica_loop_step addr rest ctx gq m callback x; cbn [fst snd].
    + (* the streaming call to [addr] failed *)
      pose proof (clientDoQueries_quiet ctx gq m callback client x1) as [Hc Hl].
      rewrite Hq in Hc, Hl. cbn [snd] in Hc, Hl.
      assert (Hlf : forall t', logged_failures
                (EvGetClientFor addr :: tq
                   ++ EvLog (LogClientDoQueriesFailed addr err) :: t')
                = addr :: logged_failures t').
      { intros t'. unfold logged_failures in *. cbn [omap list_omap].
        rewrite omap_app, Hl. reflexivity. }
      assert (Hct : forall t', contacted
                (EvGetClientFor addr :: tq
                   ++ EvLog (LogClientDoQueriesFailed addr err) :: t')
                = addr :: contacted t').
      { intros t'. unfold contacted in *. cbn [omap list_omap].
        rewrite omap_app, Hc. reflexivity. }
      rewrite Hlf, Hct.
      destruct (IH x2) as [[Hres (a & post & t0 & x0 & c & x1' & tq' & Ha & Hcon & Ht & Hl0 & Hp' & Hq')]
                          |(Hres & Hfail & Hcon)].
      * left. split; [exact Hres|].
        exists a, post,
          (EvGetClientFor addr :: tq
             ++ EvLog (LogClientDoQueriesFailed addr err) :: t0),
          x0, c, x1', tq'.
        rewrite Hlf, Hcon, Hl0. rewrite <- !app_comm_cons, <- Ha.
        repeat split; try assumption.
        rewrite Ht at 1. cbn [app]. rewrite <- app_assoc. reflexivity.
      * right. rewrite Hfail, Hcon. auto.
    + (* [addr] answered: the loop ends *)
      pose proof (clientDoQueries_quiet ctx gq m callback client x1) as [Hc Hl].
      rewrite Hq in Hc, Hl. cbn [snd] in Hc, Hl.
      assert (Hlf : logged_failures (EvGetClientFor addr :: tq) = [])
        by (unfold logged_failures in *; cbn [omap list_omap]; exact Hl).
      assert (Hct : contacted (EvGetClientFor addr :: tq) = [addr])
        by (unfold contacted in *; cbn [omap list_omap]; rewrite Hc; reflexivity).
      left. split; [reflexivity|].
      exists addr, rest, [], x, client, x1, tq.
      rewrite Hlf, Hct. repeat split; auto.
    + (* no connection handle for [addr] *)
      assert (Hlf : forall t', logged_failures
                (EvGetClientFor addr :: EvLog (LogGetClientFailed addr err) :: t')
                = addr :: logged_failures t') by reflexivity.
      assert (Hct : forall t', contacted
                (EvGetClientFor addr :: EvLog (LogGetClientFailed addr err) :: t')
                = addr :: contacted t') by reflexivity.
      rewrite Hlf, Hct.
      destruct (IH x1) as [[Hres (a & post & t0 & x0 & c & x1' & tq' & Ha & Hcon & Ht & Hl0 & Hp' & Hq')]
                          |(Hres & Hfail & Hcon)].
      * left. split; [exact Hres|].
        exists a, post,
          (EvGetClientFor addr :: EvLog (LogGetClientFailed addr err) :: t0),
          x0, c, x1', tq'.
        rewrite Hlf, Hcon, Hl0. rewrite <- !app_comm_cons, <- Ha.
        repeat split; try assumption.
        rewrite Ht at 1. reflexivity.
      * right. rewrite Hfail, Hcon. auto.
Qed.

Lemma clientDoQueries_emitted ctx gq m callback client x :
  Forall (emitted_for gq m) (snd (clientDoQueries ctx gq m callback client x)).
Proof.
  destruct (clientDoQueries_events ctx gq m callback client x)
    as (t & Hev & Hem & _).
  rewrite Hev. constructor; [reflexivity|exact Hem].
Qed.

Lemma replica_loop_emitted addrs ctx gq m callback x :
  Forall (emitted_for gq m) (snd (replica_loop addrs ctx gq m callback x)).
Proof.
  revert x. induction addrs as [|addr rest IH]; intros x.
  - rewrite replica_loop_nil. constructor.
  - replica_loop_step addr rest ctx gq m callback x; cbn [fst snd].
    + pose proof (clientDoQueries_emitted ctx gq m callback client x1) as Hem.
      rewrite Hq in Hem. cbn [snd] in Hem.
      constructor; [exact I|]. apply Forall_app. split; [exact Hem|].
      constructor; [exact I|]. apply IH.
    + pose proof (clientDoQueries_emitted ctx gq m callback client x1) as Hem.
      rewrite Hq in Hem. cbn [snd] in Hem.
      constructor; [exact I|exact Hem].
    + constructor; [exact I|]. constructor; [exact I|]. apply IH.
Qed.

Lemma clientDoQueries_one_rpc ctx gq m callback client x :
  rpc_requests (snd (clientDoQueries ctx gq m callback client x))
  = [{| Queries := gq |}].
Proof.
  destruct (clientDoQueries_events ctx gq m callback client x)
    as (t & Hev & _ & Hr & _).
  rewrite Hev.
  change (rpc_requests (EvQueryIndex client {| Queries := gq |} :: t))
    with ({| Queries := gq |} :: rpc_requests t).
  rewrite Hr. reflexivity.
Qed.

(** The replica loop makes at most one RPC call per address it contacts,
    and contacts at most the addresses it was given. *)
Lemma replica_loop_rpc_per_contact addrs ctx gq m callback x :
  let t := snd (replica_loop addrs ctx gq m callback x) in
  (length (rpc_requests t) <= length (contacted t) <= length addrs)%nat.
Proof.
  cbn zeta. revert x. induction addrs as [|addr rest IH]; intros x.
  - rewrite replica_loop_nil. simpl. lia.
  - replica_loop_step addr rest ctx gq m callback x; cbn [fst snd].
    + pose proof (clientDoQueries_quiet ctx gq m callback client x1) as [Hc _].
      pose proof (clientDoQueries_one_rpc ctx gq m callback client x1) as Hr.
      rewrite Hq in Hc, Hr. cbn [snd] in Hc, Hr.
      specialize (IH x2). unfold rpc_requests, contacted in *.
      cbn [omap list_omap]. rewrite !omap_app, Hc, Hr.
      cbn [omap list_omap app length]. simpl in IH. lia.
    + pose proof (clientDoQueries_quiet ctx gq m callback client x1) as [Hc _].
      pose proof (clientDoQueries_one_rpc ctx gq m callback client x1) as Hr.
      rewrite Hq in Hc, Hr. cbn [snd] in Hc, Hr.
      unfold rpc_requests, contacted in *.
      cbn [omap list_omap]. rewrite Hc, Hr. simpl. lia.
    + specialize (IH x1). unfold rpc_requests, contacted in *.
      cbn [omap list_omap length]. simpl in IH. lia.
Qed.

(** *** The loop as a whole *)

Lemma clientDoQueries_no_ring_lookup ctx gq m callback client x :
  ring_lookups (snd (clientDoQueries ctx gq m callback client x)) = [].
Proof.
  destruct (QueryIndex client ctx {| Queries := gq |} x) as [[streamer|err] x1] eqn:Hq.
  - rewrite (clientDoQueries_stream _ _ _ _ _ _ _ _ Hq). cbn -[recv_loop].
    apply (recv_loop_no_ring_lookup (stream_msgs streamer)).
  - rewrite (clientDoQueries_rpc_error _ _ _ _ _ _ _ _ Hq). reflexivity.
Qed.

Lemma replica_loop_no_ring_lookup addrs ctx gq m callback x :
  ring_lookups (snd (replica_loop addrs ctx gq m callback x)) = [].
Proof.
  revert x. induction addrs as [|addr rest IH]; intros x.
  - reflexivity.
  - replica_loop_step addr rest ctx gq m callback x; cbn [fst snd].
    + pose proof (clientDoQueries_no_ring_lookup ctx gq m callback client x1) as Hn.
      rewrite Hq in Hn. cbn [snd] in Hn.
      unfold ring_lookups in *. cbn [omap list_omap].
      rewrite omap_app, Hn. cbn [omap list_omap app]. apply IH.
    + pose proof (clientDoQueries_no_ring_lookup ctx gq m callback client x1) as Hn.
      rewrite Hq in Hn. exact Hn.
    + apply IH.
Qed.


Lemma replica_loop_contacted_prefix addrs ctx gq m callback x :
  contacted (snd (replica_loop addrs ctx gq m callback x)) `prefix_of` addrs.
Proof.
  revert x. induction addrs as [|addr rest IH]; intros x.
  - apply prefix_nil.
  - replica_loop_step addr rest ctx gq m callback x; cbn [fst snd];
      try (pose proof (clientDoQueries_quiet ctx gq m callback client x1) as [Hc _];
           rewrite Hq in Hc; cbn [snd] in Hc);
      unfold contacted in *; cbn [omap list_omap].
    + rewrite omap_app, Hc. cbn [omap list_omap app]. apply prefix_cons, IH.
    + rewrite Hc. apply prefix_cons, prefix_nil.
    + apply prefix_cons, IH.
Qed.

Lemma replica_loop_stop_ends addrs ctx gq m callback x t1 query batch t2 :
  snd (replica_loop addrs ctx gq m callback x)
    = t1 ++ EvCallback query batch false :: t2 ->
  t2 = []
  /\ fst (fst (replica_loop addrs ctx gq m callback x)) = Returned None.
Proof.
  revert x t1. induction addrs as [|addr rest IH]; intros x t1.
  - rewrite replica_loop_nil. cbn [snd]. intros Ht.
    destruct t1; discriminate Ht.
  - replica_loop_step addr rest ctx gq m callback x; cbn [fst snd]; intros Ht.
    + (* a failed streaming call holds no stop of the callback *)
      destruct t1 as [|e1 t1]; [discriminate Ht|].
      injection Ht as _ Ht. apply app_eq_app in Ht as [l [[Htq Hl]|[Ht1 Hl]]].
      * destruct l as [|e l]; [discriminate Hl|]. injection Hl as <- _.
        destruct (clientDoQueries_events ctx gq m callback client x1)
          as (t & Hev & _ & _ & _ & _ & _ & Hstop).
        rewrite Hq in Hev, Hstop. cbn [fst snd] in Hev, Hstop.
        rewrite Htq in Hev. destruct t1 as [|e1' t1]; [discriminate Hev|].
        injection Hev as _ Hev.
        destruct (Hstop t1 query batch l (eq_sym Hev)) as [_ Hres].
        discriminate Hres.
      * destruct l as [|e l]; [discriminate Hl|]. injection Hl as _ Hl.
        apply (IH x2 l). exact Hl.
    + destruct t1 as [|e1 t1]; [discriminate Ht|].
      injection Ht as _ Ht. split; [|reflexivity].
      destruct (clientDoQueries_events ctx gq m callback client x1)
        as (t & Hev & _ & _ & _ & _ & _ & Hstop).
      rewrite Hq in Hev, Hstop. cbn [fst snd] in Hev, Hstop.
      rewrite Ht in Hev. destruct t1 as [|e1' t1]; [discriminate Hev|].
      injection Hev as _ Hev.
      apply (Hstop t1 query batch t2 (eq_sym Hev)).
    + destruct t1 as [|e1 [|e2 t1]]; try discriminate Ht.
      injection Ht as _ _ Ht. apply (IH x1 t1). exact Ht.
Qed.

End RingMode.

Lemma ring_failover_first_success_witness :
  let m := fst (@doQueries_build _ _ _ Demo.collaborators [Demo.q1; Demo.q2]) in
  let gq := map toIndexQuery [Demo.q1; Demo.q2] in
  let run := replica_loop ["A"; "B"; "C"] (Some "u") gq m
               Demo.cb_continue Demo.world_failover in
  fst (fst run) = Returned None
  /\ contacted (snd run) = ["A"; "B"; "C"]
  /\ logged_failures (snd run) = ["A"; "B"].
Proof.
  intros m gq run.
  pose proof (proj1 (proj2 (ring_failover_first_success ["A"; "B"; "C"]
                (Some "u") gq m Demo.cb_continue Demo.world_failover)
              "A" ["B"; "C"] eq_refl)
              (External "dial") Demo.world_failover eq_refl) as Hrun.
  fold run in Hrun. rewrite Hrun. vm_compute. auto.
Defined.

Section RingResolution.
Context {Ext Client context : Type} `{!Collaborators Ext Client context}.
Implicit Types (x : Ext) (m : gmap string Query) (gq : list IndexQuery)
  (callback : QueryPagesCallback Ext) (ctx : context).

Lemma ringModeDoQueries_no_tenant ctx gq m callback x err :
  tenant_TenantID ctx = inr err ->
  ringModeDoQueries ctx gq m callback x
  = (Returned (Some (Wrap err "index gateway client get tenant ID")), x, []).
Proof. intros Ht. unfold ringModeDoQueries. rewrite Ht. reflexivity. Qed.

Lemma ringModeDoQueries_no_ring ctx gq m callback x userID err x1 :
  tenant_TenantID ctx = inl userID ->
  ring_Get (util_TokenFor userID "") WriteNoExtend x = (inr err, x1) ->
  ringModeDoQueries ctx gq m callback x
  = (Returned (Some (Wrap err "index gateway get ring")), x1,
     [EvRingGet (util_TokenFor userID "") WriteNoExtend]).
Proof.
  intros Ht Hr. unfold ringModeDoQueries. rewrite Ht.
  unfold bind, extern. rewrite Hr. reflexivity.
Qed.

Lemma ringModeDoQueries_resolved ctx gq m callback x userID rs x1 addrs x2 :
  tenant_TenantID ctx = inl userID ->
  ring_Get (util_TokenFor userID "") WriteNoExtend x = (inl rs, x1) ->
  rand_Shuffle (GetAddresses rs) x1 = (addrs, x2) ->
  ringModeDoQueries ctx gq m callback x
  = let run := replica_loop addrs ctx gq m callback x2 in
    (fst (fst run), snd (fst run),
     EvRingGet (util_TokenFor userID "") WriteNoExtend
       :: EvShuffle addrs :: snd run).
Proof.
  intros Ht Hr Hs. unfold ringModeDoQueries. rewrite Ht.
  unfold bind at 1. unfold extern at 1. rewrite Hr.
  cbn -[replica_loop]. unfold bind, extern. rewrite Hs.
  destruct (replica_loop addrs ctx gq m callback x2) as [[r x3] t].
  reflexivity.
Qed.

(** C6. In ring mode, when the tenant ID cannot be read from the context
    the dispatch returns that error wrapped, with no event at all; when the
    ring lookup, made with the token of the tenant ID and the empty label
    string under [WriteNoExtend], fails, the dispatch returns that error
    wrapped and the lookup is its only event.  In both cases no connection
    handle is asked for and no RPC call is made. *)
Theorem ring_resolution_failure_is_fatal (ctx : context)
    (gq : list IndexQuery) (m : gmap string Query)
    (callback : QueryPagesCallback Ext) (x : Ext) :
  let run := ringModeDoQueries ctx gq m callback x in
  (forall err, tenant_TenantID ctx = inr err ->
     run = (Returned (Some (Wrap err "index gateway client get tenant ID")), x, [])
     /\ contacted (snd run) = [] /\ rpc_requests (snd run) = [])
  /\ (forall userID err x1,
        tenant_TenantID ctx = inl userID ->
        ring_Get (util_TokenFor userID "") WriteNoExtend x = (inr err, x1) ->
        run = (Returned (Some (Wrap err "index gateway get ring")), x1,
               [EvRingGet (util_TokenFor userID "") WriteNoExtend])
        /\ contacted (snd run) = [] /\ rpc_requests (snd run) = []).
Proof.
  cbn zeta. split.
  - intros err Ht.
    rewrite (ringModeDoQueries_no_tenant _ _ _ _ _ _ Ht). auto.
  - intros userID err x1 Ht Hr.
    rewrite (ringModeDoQueries_no_ring _ _ _ _ _ _ _ _ Ht Hr). auto.
Qed.

End RingResolution.

Lemma ring_resolution_failure_is_fatal_witness :
  ringModeDoQueries None [] ∅ Demo.cb_continue Demo.world_no_ring
  = (Returned (Some (Wrap (External "no org id")
                          "index gateway client get tenant ID")),
     Demo.world_no_ring, [])
  /\ ringModeDoQueries (Some "tenant-a") [] ∅ Demo.cb_continue Demo.world_no_ring
     = (Returned (Some (Wrap (External "too many unhealthy instances")
                             "index gateway get ring")),
        Demo.world_no_ring, [EvRingGet 0 WriteNoExtend]).
Proof.
  split.
  - refine (proj1 (proj1 (ring_resolution_failure_is_fatal
                     None [] ∅ Demo.cb_continue Demo.world_no_ring)
                  (External "no org id") _)).
    reflexivity.
  - refine (proj1 (proj2 (ring_resolution_failure_is_fatal
                     (Some "tenant-a") [] ∅ Demo.cb_continue Demo.world_no_ring)
                  "tenant-a" (External "too many unhealthy instances")
                  Demo.world_no_ring _ _)); reflexivity.
Defined.

(** ** Request construction *)

Section RequestConstruction.
Context {Ext Client context : Type} `{!Collaborators Ext Client context}.
Implicit Types (queries : list Query) (query : Query).

Lemma doQueries_build_snoc queries query :
  doQueries_build (queries ++ [query])
  = (<[shipper_util_QueryKey query := query]> (fst (doQueries_build queries)),
     snd (doQueries_build queries) ++ [toIndexQuery query]).
Proof. unfold doQueries_build. rewrite foldl_snoc. reflexivity. Qed.

Lemma doQueries_build_wire queries :
  snd (doQueries_build queries) = map toIndexQuery queries.
Proof.
  induction queries as [|query queries IH] using rev_ind; [reflexivity|].
  rewrite doQueries_build_snoc, map_app. simpl. rewrite IH. reflexivity.
Qed.

Lemma doQueries_build_lookup_Some queries key query :
  fst (doQueries_build queries) !! key = Some query ->
  query ∈ queries /\ shipper_util_QueryKey query = key.
Proof.
  induction queries as [|query0 queries IH] using rev_ind.
  - unfold doQueries_build. simpl. rewrite lookup_empty. discriminate.
  - rewrite doQueries_build_snoc. simpl. rewrite lookup_insert_Some.
    intros [[<- <-]|[Hne Hl]].
    + split; [|reflexivity]. apply elem_of_app. right. apply list_elem_of_singleton. reflexivity.
    + destruct (IH Hl) as [Hin Hk]. split; [|exact Hk].
      apply elem_of_app. left. exact Hin.
Qed.

Lemma doQueries_build_dom queries :
  dom (fst (doQueries_build queries))
  = list_to_set (map shipper_util_QueryKey queries).
Proof.
  induction queries as [|query queries IH] using rev_ind.
  - unfold doQueries_build. simpl. apply dom_empty_L.
  - rewrite doQueries_build_snoc, map_app. simpl.
    rewrite dom_insert_L, IH, list_to_set_app_L. simpl.
    rewrite union_empty_r_L. apply union_comm_L.
Qed.

Lemma doQueries_build_lookup_None queries key :
  key ∉ map shipper_util_QueryKey queries ->
  fst (doQueries_build queries) !! key = None.
Proof.
  intros Hnot. apply not_elem_of_dom. rewrite doQueries_build_dom.
  rewrite elem_of_list_to_set. exact Hnot.
Qed.

(** The last query with a given key is the one the map holds. *)
Lemma doQueries_build_last_wins queries1 query queries2 :
  shipper_util_QueryKey query ∉ map shipper_util_QueryKey queries2 ->
  fst (doQueries_build (queries1 ++ query :: queries2)) !! shipper_util_QueryKey query
  = Some query.
Proof.
  induction queries2 as [|query2 queries2 IH] using rev_ind; intros Hnot.
  - rewrite doQueries_build_snoc. simpl. apply lookup_insert_eq.
  - rewrite map_app in Hnot. simpl in Hnot.
    rewrite not_elem_of_app, list_elem_of_singleton in Hnot.
    destruct Hnot as [Hnot Hne].
    replace (queries1 ++ query :: queries2 ++ [query2])
      with ((queries1 ++ query :: queries2) ++ [query2])
      by (rewrite <- app_assoc; reflexivity).
    rewrite doQueries_build_snoc. simpl.
    rewrite lookup_insert_ne by congruence. apply IH, Hnot.
Qed.

Lemma doQueries_build_size_le queries :
  (size (fst (doQueries_build queries)) <= length queries)%nat.
Proof.
  induction queries as [|query queries IH] using rev_ind.
  - unfold doQueries_build. simpl. rewrite map_size_empty. lia.
  - rewrite doQueries_build_snoc, length_app. simpl.
    rewrite map_size_insert.
    destruct (fst (doQueries_build queries) !! shipper_util_QueryKey query);
      unfold id; lia.
Qed.

Lemma doQueries_build_size_distinct queries :
  NoDup (map shipper_util_QueryKey queries) ->
  size (fst (doQueries_build queries)) = length queries.
Proof.
  induction queries as [|query queries IH] using rev_ind; intros Hnd.
  - unfold doQueries_build. simpl. apply map_size_empty.
  - rewrite map_app in Hnd. apply NoDup_app in Hnd as (Hnd & Hfresh & _).
    rewrite doQueries_build_snoc, length_app. simpl.
    rewrite map_size_insert_None.
    + rewrite IH by exact Hnd. lia.
    + apply doQueries_build_lookup_None. intros Hin.
      apply (Hfresh _ Hin). simpl. apply list_elem_of_singleton. reflexivity.
Qed.

Lemma doQueries_build_lookup_distinct queries query :
  NoDup (map shipper_util_QueryKey queries) ->
  query ∈ queries ->
  fst (doQueries_build queries) !! shipper_util_QueryKey query = Some query.
Proof.
  intros Hnd Hin.
  apply list_elem_of_split in Hin as (queries1 & queries2 & ->).
  apply doQueries_build_last_wins.
  rewrite map_app in Hnd. apply NoDup_app in Hnd as (_ & _ & Hnd).
  simpl in Hnd. apply NoDup_cons in Hnd as [Hnot _]. exact Hnot.
Qed.

End RequestConstruction.

(** ** Dispatch of one sub-batch *)

Section Dispatch.
Context {Ext Client context : Type} `{!Collaborators Ext Client context}.
Implicit Types (x : Ext) (m : gmap string Query) (gq : list IndexQuery)
  (callback : QueryPagesCallback Ext) (ctx : context)
  (s : GatewayClient Client) (queries : list Query).

Lemma ringModeDoQueries_emitted ctx gq m callback x :
  Forall (emitted_for gq m) (snd (ringModeDoQueries ctx gq m callback x)).
Proof.
  destruct (tenant_TenantID ctx) as [userID|err] eqn:Ht.
  - destruct (ring_Get (util_TokenFor userID "") WriteNoExtend x)
      as [[rs|err] x1] eqn:Hr.
    + destruct (rand_Shuffle (GetAddresses rs) x1) as [addrs x2] eqn:Hs.
      rewrite (ringModeDoQueries_resolved _ _ _ _ _ _ _ _ _ _ Ht Hr Hs).
      cbn [snd]. constructor; [exact I|]. constructor; [exact I|].
      apply replica_loop_emitted.
    + rewrite (ringModeDoQueries_no_ring _ _ _ _ _ _ _ _ Ht Hr).
      repeat constructor.
  - rewrite (ringModeDoQueries_no_tenant _ _ _ _ _ _ Ht). constructor.
Qed.

Lemma doQueries_unfold s ctx queries callback x :
  doQueries s ctx queries callback x
  = if decide (cfg_Mode s = RingMode)
    then ringModeDoQueries ctx (map toIndexQuery queries)
           (fst (doQueries_build queries)) callback x
    else clientDoQueries ctx (map toIndexQuery queries)
           (fst (doQueries_build queries)) callback (grpcClient s) x.
Proof.
  unfold doQueries. rewrite <- doQueries_build_wire.
  destruct (doQueries_build queries) as [m gq]. cbn [fst snd].
  destruct (decide (cfg_Mode s = RingMode)); reflexivity.
Qed.

Lemma doQueries_emitted s ctx queries callback x :
  Forall (emitted_for (map toIndexQuery queries) (fst (doQueries_build queries)))
         (snd (doQueries s ctx queries callback x)).
Proof.
  rewrite doQueries_unfold. case_decide.
  - apply ringModeDoQueries_emitted.
  - apply clientDoQueries_emitted.
Qed.

(** Every RPC call of a dispatch carries the wire form of its queries. *)
Lemma doQueries_rpc_requests s ctx queries callback x req :
  req ∈ rpc_requests (snd (doQueries s ctx queries callback x)) ->
  req = {| Queries := map toIndexQuery queries |}.
Proof.
  unfold rpc_requests. rewrite list_elem_of_omap.
  intros (e & Hin & He).
  pose proof (doQueries_emitted s ctx queries callback x) as Hem.
  rewrite Forall_forall in Hem. specialize (Hem e Hin).
  destruct e; simplify_eq/=. reflexivity.
Qed.

(** The callback only gets queries the key map holds for the key of the
    response. *)
Lemma doQueries_callbacks s ctx queries callback x query batch :
  (query, batch) ∈ callbacks (snd (doQueries s ctx queries callback x)) ->
  fst (doQueries_build queries) !! QueryKey (rb_QueryIndexResponse batch)
  = Some query.
Proof.
  unfold callbacks. rewrite list_elem_of_omap.
  intros (e & Hin & He).
  pose proof (doQueries_emitted s ctx queries callback x) as Hem.
  rewrite Forall_forall in Hem. specialize (Hem e Hin).
  destruct e; simplify_eq/=. exact Hem.
Qed.

(** Outside ring mode a dispatch makes exactly one RPC call. *)
Lemma doQueries_simple_one_rpc s ctx queries callback x :
  cfg_Mode s <> RingMode ->
  exists t,
    snd (doQueries s ctx queries callback x)
    = EvQueryIndex (grpcClient s) {| Queries := map toIndexQuery queries |} :: t
    /\ rpc_requests t = [] /\ contacted t = []
    /\ rpc_requests (snd (doQueries s ctx queries callback x))
       = [{| Queries := map toIndexQuery queries |}].
Proof.
  intros Hmode. rewrite doQueries_unfold. rewrite decide_False by exact Hmode.
  destruct (clientDoQueries_events ctx (map toIndexQuery queries)
              (fst (doQueries_build queries)) callback (grpcClient s) x)
    as (t & Hev & _ & Hr & Hc & _).
  exists t. repeat split; try assumption.
  rewrite Hev.
  change (rpc_requests (EvQueryIndex (grpcClient s)
            {| Queries := map toIndexQuery queries |} :: t))
    with ({| Queries := map toIndexQuery queries |} :: rpc_requests t).
  rewrite Hr. reflexivity.
Qed.

(** C5. For a sub-batch whose queries have pairwise distinct keys, the key
    map built by [doQueries] has as many entries as there are queries and
    maps the key of each query to that query.  Whatever the keys, an entry
    of the map is a query of the sub-batch under its own key, and every
    query handed to the callback by the dispatch is the map's entry for the
    key of the response, hence a query of the sub-batch. *)
Theorem key_map_one_entry_per_query (s : GatewayClient Client) (ctx : context)
    (queries : list Query) (callback : QueryPagesCallback Ext) (x : Ext) :
  NoDup (map shipper_util_QueryKey queries) ->
  let m := fst (doQueries_build queries) in
  size m = length queries
  /\ (forall query, query ∈ queries -> m !! shipper_util_QueryKey query = Some query)
  /\ (forall key query, m !! key = Some query ->
        query ∈ queries /\ shipper_util_QueryKey query = key)
  /\ (forall query batch,
        (query, batch) ∈ callbacks (snd (doQueries s ctx queries callback x)) ->
        m !! QueryKey (rb_QueryIndexResponse batch) = Some query
        /\ query ∈ queries
        /\ shipper_util_QueryKey query = QueryKey (rb_QueryIndexResponse batch)).
Proof.
  intros Hnd m.
  split; [apply doQueries_build_size_distinct, Hnd|].
  split; [intros query; apply doQueries_build_lookup_distinct, Hnd|].
  split; [intros key query; apply doQueries_build_lookup_Some|].
  intros query batch Hcb.
  pose proof (doQueries_callbacks _ _ _ _ _ _ _ Hcb) as Hl.
  split; [exact Hl|]. apply doQueries_build_lookup_Some. exact Hl.
Qed.

(** C10. For every sub-batch, with or without colliding keys, the request
    built by [doQueries] lists one wire descriptor per query, in input
    order, each with the five fields of its query; every RPC call of the
    dispatch carries exactly that list.  Collisions only affect the key
    map: it has one entry per distinct key, and for each key it holds the
    last query of the sub-batch with that key. *)
Theorem wire_request_keeps_every_query (s : GatewayClient Client) (ctx : context)
    (queries : list Query) (callback : QueryPagesCallback Ext) (x : Ext) :
  let m := fst (doQueries_build queries) in
  let gatewayQueries := snd (doQueries_build queries) in
  gatewayQueries = map toIndexQuery queries
  /\ length gatewayQueries = length queries
  /\ (forall n query, queries !! n = Some query ->
        exists iq, gatewayQueries !! n = Some iq
          /\ iq_TableName iq = TableName query
          /\ iq_HashValue iq = HashValue query
          /\ iq_RangeValuePrefix iq = RangeValuePrefix query
          /\ iq_RangeValueStart iq = RangeValueStart query
          /\ iq_ValueEqual iq = ValueEqual query)
  /\ (forall req,
        req ∈ rpc_requests (snd (doQueries s ctx queries callback x)) ->
        Queries req = gatewayQueries)
  /\ dom m = list_to_set (map shipper_util_QueryKey queries)
  /\ (size m <= length queries)%nat
  /\ (forall queries1 query queries2,
        queries = queries1 ++ query :: queries2 ->
        shipper_util_QueryKey query ∉ map shipper_util_QueryKey queries2 ->
        m !! shipper_util_QueryKey query = Some query).
Proof.
  intros m gatewayQueries.
  assert (Hwire : gatewayQueries = map toIndexQuery queries)
    by apply doQueries_build_wire.
  split; [exact Hwire|].
  split; [rewrite Hwire; apply length_map|].
  split.
  { intros n query Hn. exists (toIndexQuery query).
    rewrite Hwire, list_lookup_fmap, Hn. simpl. auto 10. }
  split.
  { intros req Hreq. apply doQueries_rpc_requests in Hreq.
    rewrite Hreq, Hwire. reflexivity. }
  split; [apply doQueries_build_dom|].
  split; [apply doQueries_build_size_le|].
  intros queries1 query queries2 -> Hnot.
  apply doQueries_build_last_wins, Hnot.
Qed.

(** In ring mode a dispatch makes at most one RPC call per replica address
    it contacts. *)
Lemma doQueries_ring_rpc_per_contact s ctx queries callback x :
  cfg_Mode s = RingMode ->
  let t := snd (doQueries s ctx queries callback x) in
  (length (rpc_requests t) <= length (contacted t))%nat.
Proof.
  intros Hmode. cbn zeta. rewrite doQueries_unfold.
  rewrite decide_True by exact Hmode.
  set (gq := map toIndexQuery queries). set (m := fst (doQueries_build queries)).
  destruct (tenant_TenantID ctx) as [userID|err] eqn:Ht.
  - destruct (ring_Get (util_TokenFor userID "") WriteNoExtend x)
      as [[rs|err] x1] eqn:Hr.
    + destruct (rand_Shuffle (GetAddresses rs) x1) as [addrs x2] eqn:Hs.
      rewrite (ringModeDoQueries_resolved _ _ _ _ _ _ _ _ _ _ Ht Hr Hs).
      cbn [snd].
      pose proof (replica_loop_rpc_per_contact addrs ctx gq m callback x2) as Hle.
      cbn zeta in Hle. unfold rpc_requests, contacted in *.
      cbn [omap list_omap]. lia.
    + rewrite (ringModeDoQueries_no_ring _ _ _ _ _ _ _ _ Ht Hr). simpl. lia.
  - rewrite (ringModeDoQueries_no_tenant _ _ _ _ _ _ Ht). simpl. lia.
Qed.

End Dispatch.

Lemma key_map_one_entry_per_query_witness :
  let m := fst (@doQueries_build _ _ _ Demo.collaborators [Demo.q1; Demo.q2]) in
  NoDup (map Demo.table_hash_key [Demo.q1; Demo.q2])
  /\ size m = 2%nat
  /\ m !! "t:h2" = Some Demo.q2.
Proof.
  intros m.
  assert (Hnd : NoDup (map Demo.table_hash_key [Demo.q1; Demo.q2])).
  { apply (bool_decide_unpack _). vm_compute. exact I. }
  split; [exact Hnd|].
  pose proof (key_map_one_entry_per_query Demo.simple_client (Some "u")
                [Demo.q1; Demo.q2] Demo.cb_continue
                (Demo.world_serving (inr (External "unavailable"))) Hnd)
    as (Hsize & Hget & _).
  split; [exact Hsize|].
  apply (Hget Demo.q2). apply list_elem_of_In. simpl. auto.
Defined.

Lemma wire_request_keeps_every_query_witness :
  let queries := [Demo.q1; Demo.q2; Demo.q1'] in
  let m := fst (@doQueries_build _ _ _ Demo.collaborators queries) in
  let run := doQueries Demo.simple_client (Some "u") queries Demo.cb_continue
               (Demo.world_serving (inr (External "unavailable"))) in
  rpc_requests (snd run) = [{| Queries := map toIndexQuery queries |}]
  /\ size m = 2%nat
  /\ m !! "t:h1" = Some Demo.q1'.
Proof.
  intros queries m run.
  pose proof (wire_request_keeps_every_query Demo.simple_client (Some "u")
                queries Demo.cb_continue
                (Demo.world_serving (inr (External "unavailable"))))
    as (_ & _ & _ & _ & _ & _ & Hlast).
  split; [reflexivity|]. split; [reflexivity|].
  apply (Hlast [Demo.q1; Demo.q2] Demo.q1' []); [reflexivity|].
  simpl. apply not_elem_of_nil.
Defined.

(** ** Batch splitting *)

Section Batching.
Context {Ext Client context : Type} `{!Collaborators Ext Client context}.
Implicit Types (x : Ext) (callback : QueryPagesCallback Ext) (ctx : context)
  (s : GatewayClient Client) (queries : list Query) (idx : Z).

Lemma util_math_Min_min (a b : Z) : util_math_Min a b = Z.min a b.
Proof. unfold util_math_Min. destruct (Z.ltb_spec a b); lia. Qed.

Lemma jobsCount_ceil queries :
  len queries + maxQueriesPerGrpc <= max_int ->
  jobsCount queries = (len queries + 99) / 100.
Proof.
  pose proof (len_nonneg queries) as Hlen.
  unfold jobsCount, maxQueriesPerGrpc, max_int. intros Hmax.
  rewrite Z.quot_div_nonneg, Z.rem_mod_nonneg by lia.
  destruct (Z.eqb_spec (len queries mod 100) 0) as [Hrem|Hrem]; simpl negb; cbv iota.
  - Z.div_mod_to_equations. lia.
  - rewrite wrap64_id by (unfold min_int, max_int; Z.div_mod_to_equations; lia).
    Z.div_mod_to_equations. lia.
Qed.

Lemma job_slice queries idx :
  len queries + maxQueriesPerGrpc <= max_int ->
  0 <= idx < (len queries + 99) / 100 ->
  go_slice queries (wrap64 (idx * maxQueriesPerGrpc))
    (util_math_Min (wrap64 (wrap64 (idx + 1) * maxQueriesPerGrpc)) (len queries))
  = Returned (job_queries queries idx).
Proof.
  pose proof (len_nonneg queries) as Hlen.
  unfold maxQueriesPerGrpc, max_int. intros Hmax Hidx.
  assert (Hb : (idx + 1) * 100 <= len queries + 99)
    by (Z.div_mod_to_equations; lia).
  rewrite (wrap64_id (idx * 100)) by (unfold min_int, max_int; lia).
  rewrite (wrap64_id (idx + 1)) by (unfold min_int, max_int; lia).
  rewrite (wrap64_id ((idx + 1) * 100)) by (unfold min_int, max_int; lia).
  rewrite util_math_Min_min, go_slice_in_range by lia.
  reflexivity.
Qed.

Lemma jobFunc_dispatches s queries callback ctx idx x :
  len queries + maxQueriesPerGrpc <= max_int ->
  0 <= idx < (len queries + 99) / 100 ->
  jobFunc s queries callback ctx idx x
  = doQueries s ctx (job_queries queries idx) callback x.
Proof.
  intros Hmax Hidx. unfold jobFunc, bind, lift_outcome.
  rewrite (job_slice _ _ Hmax Hidx).
  destruct (doQueries s ctx (job_queries queries idx) callback x) as [[r x'] t].
  reflexivity.
Qed.

Lemma job_queries_lookup queries idx (j : nat) :
  0 <= idx ->
  job_queries queries idx !! j
  = if decide (idx * 100 + Z.of_nat j < Z.min ((idx + 1) * 100) (len queries))
    then queries !! Z.to_nat (idx * 100 + Z.of_nat j)
    else None.
Proof.
  intros Hidx. unfold job_queries, maxQueriesPerGrpc. case_decide as Hj.
  - rewrite lookup_take_lt by lia. rewrite lookup_drop. f_equal. lia.
  - apply lookup_take_ge. lia.
Qed.

Lemma job_queries_len queries idx :
  0 <= idx < (len queries + 99) / 100 ->
  len (job_queries queries idx) = Z.min 100 (len queries - idx * 100)
  /\ 1 <= len (job_queries queries idx) <= maxQueriesPerGrpc.
Proof.
  intros Hidx. pose proof (len_nonneg queries) as Hlen.
  assert (Hb : idx * 100 < len queries) by (Z.div_mod_to_equations; lia).
  unfold job_queries, maxQueriesPerGrpc, len in *.
  rewrite length_take, length_drop. lia.
Qed.

(** The jobs, in index order, partition the batch. *)
Lemma job_queries_cover queries :
  concat (map (job_queries queries) (seqZ 0 ((len queries + 99) / 100)))
  = queries.
Proof.
  pose proof (len_nonneg queries) as Hlen.
  assert (Hk : forall k : nat, Z.of_nat k <= (len queries + 99) / 100 ->
            concat (map (job_queries queries) (seqZ 0 (Z.of_nat k)))
            = take (k * 100) queries).
  { induction k as [|k IH]; intros Hle; [reflexivity|].
    rewrite Nat2Z.inj_succ, <- Z.add_1_r, seqZ_app by lia.
    rewrite map_app, concat_app, IH by lia.
    change (seqZ (0 + Z.of_nat k) 1) with [0 + Z.of_nat k].
    simpl. rewrite app_nil_r. unfold job_queries, maxQueriesPerGrpc.
    replace (Z.to_nat ((0 + Z.of_nat k) * 100)) with (k * 100)%nat by lia.
    rewrite take_take_drop.
    assert (Hb : Z.of_nat k * 100 < len queries) by (Z.div_mod_to_equations; lia).
    unfold len in *.
    destruct (Z.le_gt_cases ((Z.of_nat k + 1) * 100) (Z.of_nat (length queries))).
    - f_equal. lia.
    - transitivity queries; [apply take_ge|symmetry; apply take_ge]; lia. }
  specialize (Hk (Z.to_nat ((len queries + 99) / 100))).
  rewrite Z2Nat.id in Hk by (Z.div_mod_to_equations; lia).
  rewrite Hk by lia. apply take_ge. unfold len in *.
  Z.div_mod_to_equations. lia.
Qed.

End Batching.

Section BatchingClaims.
Context {Ext Client context : Type} `{!Collaborators Ext Client context}.

(** C1, as the code has it.  For a batch that fits in a Go slice: when it
    has at most 100 queries, [QueryPages] is one call of [doQueries] on the
    whole list; outside ring mode that is exactly one RPC call, in ring
    mode at most one RPC call per replica address contacted.  Otherwise
    [QueryPages] hands [concurrency.ForEachJob] ceil(size/100) jobs with 10
    workers, and job [idx] is one call of [doQueries] on the slice of the
    indices from [idx * 100] up to [min ((idx + 1) * 100) size], which has
    between 1 and 100 queries; the jobs in index order partition the batch.
    Every RPC call of a call of [doQueries] carries the wire form of exactly
    the queries of that call, so none carries more than 100. *)
Theorem QueryPages_batching (s : GatewayClient Client) (ctx : context)
    (queries : list Query) (callback : QueryPagesCallback Ext) :
  len queries + maxQueriesPerGrpc <= max_int ->
  let jobs := (len queries + 99) / 100 in
  (len queries <= maxQueriesPerGrpc ->
     QueryPages s ctx queries callback = doQueries s ctx queries callback
     /\ (cfg_Mode s <> RingMode -> forall x,
           rpc_requests (snd (QueryPages s ctx queries callback x))
           = [{| Queries := map toIndexQuery queries |}])
     /\ (cfg_Mode s = RingMode -> forall x,
           (length (rpc_requests (snd (QueryPages s ctx queries callback x)))
            <= length (contacted (snd (QueryPages s ctx queries callback x))))%nat))
  /\ (maxQueriesPerGrpc < len queries ->
        QueryPages s ctx queries callback
        = concurrency_ForEachJob ctx jobs maxConcurrentGrpcCalls
            (jobFunc s queries callback)
        /\ concat (map (job_queries queries) (seqZ 0 jobs)) = queries
        /\ forall idx, 0 <= idx < jobs ->
             (forall ctx' x, jobFunc s queries callback ctx' idx x
                             = doQueries s ctx' (job_queries queries idx) callback x)
             /\ (forall j : nat,
                   job_queries queries idx !! j
                   = if decide (idx * 100 + Z.of_nat j
                                < Z.min ((idx + 1) * 100) (len queries))
                     then queries !! Z.to_nat (idx * 100 + Z.of_nat j)
                     else None)
             /\ len (job_queries queries idx) = Z.min 100 (len queries - idx * 100)
             /\ 1 <= len (job_queries queries idx) <= maxQueriesPerGrpc)
  /\ (forall sub ctx' x req,
        req ∈ rpc_requests (snd (doQueries s ctx' sub callback x)) ->
        Queries req = map toIndexQuery sub
        /\ len (Queries req) = len sub).
Proof.
  intros Hmax jobs. split; [|split].
  - intros Hle. unfold QueryPages.
    rewrite (proj2 (Z.leb_le _ _) Hle). split; [reflexivity|]. split.
    + intros Hmode x.
      destruct (doQueries_simple_one_rpc s ctx queries callback x Hmode)
        as (t & _ & _ & _ & Hone).
      exact Hone.
    + intros Hmode x. apply doQueries_ring_rpc_per_contact. exact Hmode.
  - intros Hgt. split; [|split].
    + unfold QueryPages. rewrite (proj2 (Z.leb_gt _ _) Hgt).
      rewrite jobsCount_ceil by exact Hmax. reflexivity.
    + apply job_queries_cover.
    + intros idx Hidx.
      split; [intros ctx' x; apply jobFunc_dispatches; assumption|].
      split; [intros j; apply job_queries_lookup; lia|].
      apply job_queries_len. exact Hidx.
  - intros sub ctx' x req Hreq.
    apply doQueries_rpc_requests in Hreq. subst req. simpl.
    split; [reflexivity|]. unfold len. rewrite length_map. reflexivity.
Qed.

(** C7, as the code has it.  For the empty batch [QueryPages] is one call
    of [doQueries] on the empty list: the request has no query and the key
    map no entry, so the callback is never invoked and every RPC call
    carries an empty query list.  Outside ring mode exactly one RPC call is
    made, and the result is nil exactly when that call opens a stream that
    ends with [io.EOF] before any response. *)
Theorem QueryPages_empty_batch (s : GatewayClient Client) (ctx : context)
    (callback : QueryPagesCallback Ext) (x : Ext) :
  let run := QueryPages s ctx [] callback x in
  QueryPages s ctx [] callback = doQueries s ctx [] callback
  /\ doQueries_build (Ext:=Ext) (Client:=Client) (context:=context) [] = (∅, [])
  /\ callbacks (snd run) = []
  /\ (forall req, req ∈ rpc_requests (snd run) -> Queries req = [])
  /\ (cfg_Mode s <> RingMode ->
        rpc_requests (snd run) = [{| Queries := [] |}]
        /\ (fst (fst run) = Returned None
            <-> exists x1,
                  QueryIndex (grpcClient s) ctx {| Queries := [] |} x
                  = (inl {| stream_msgs := []; stream_status := None |}, x1))).
Proof.
  assert (Hqp : QueryPages s ctx [] callback = doQueries s ctx [] callback)
    by reflexivity.
  cbn zeta. rewrite Hqp.
  split; [reflexivity|]. split; [reflexivity|]. split; [|split].
  - destruct (callbacks (snd (doQueries s ctx [] callback x)))
      as [|[query batch] l] eqn:Hcb; [reflexivity|].
    assert (Hin : (query, batch)
                  ∈ callbacks (snd (doQueries s ctx [] callback x)))
      by (rewrite Hcb; apply list_elem_of_here).
    apply doQueries_callbacks in Hin. simpl in Hin.
    rewrite lookup_empty in Hin. discriminate.
  - intros req Hreq. apply doQueries_rpc_requests in Hreq.
    subst req. reflexivity.
  - intros Hmode. split.
    + destruct (doQueries_simple_one_rpc s ctx [] callback x Hmode)
        as (t & _ & _ & _ & Hone).
      exact Hone.
    + rewrite doQueries_unfold, decide_False by exact Hmode.
      change (map toIndexQuery []) with (@nil IndexQuery).
      change (fst (doQueries_build [])) with (∅ : gmap string Query).
      destruct (QueryIndex (grpcClient s) ctx {| Queries := [] |} x)
        as [[[msgs status]|err] x1] eqn:Hq.
      * rewrite (clientDoQueries_stream _ _ _ _ _ _ _ _ Hq).
        cbn [fst snd stream_msgs stream_status].
        destruct msgs as [|resp rest].
        -- destruct status as [err|]; simpl; split.
           ++ discriminate.
           ++ intros [x2 Hx]. simplify_eq.
           ++ eauto.
           ++ reflexivity.
        -- rewrite recv_loop_unknown by apply lookup_empty. simpl. split.
           ++ discriminate.
           ++ intros [x2 Hx]. simplify_eq.
      * rewrite (clientDoQueries_rpc_error _ _ _ _ _ _ _ _ Hq). simpl. split.
        -- discriminate.
        -- intros [x2 Hx]. simplify_eq.
Qed.

End BatchingClaims.

Lemma QueryPages_batching_witness :
  let queries := replicate 250 Demo.q1 in
  len queries + maxQueriesPerGrpc <= max_int
  /\ QueryPages Demo.simple_client (Some "u") queries Demo.cb_continue
     = concurrency_ForEachJob (Some "u") 3 10
         (jobFunc Demo.simple_client queries Demo.cb_continue)
  /\ len (job_queries queries 2) = 50.
Proof.
  intros queries.
  assert (Hmax : len queries + maxQueriesPerGrpc <= max_int)
    by (vm_compute; discriminate).
  assert (Hgt : maxQueriesPerGrpc < len queries) by reflexivity.
  split; [exact Hmax|].
  pose proof (QueryPages_batching Demo.simple_client (Some "u") queries
                Demo.cb_continue Hmax) as (_ & Hfan & _).
  destruct (Hfan Hgt) as (Hq & _ & Hjobs).
  split; [exact Hq|].
  destruct (Hjobs 2) as (_ & _ & Hlen & _); [split; [lia|reflexivity]|].
  exact Hlen.
Defined.

Lemma QueryPages_empty_batch_witness :
  rpc_requests
    (snd (QueryPages Demo.simple_client (Some "u") [] Demo.cb_continue
            (Demo.world_serving (inr (External "unavailable")))))
  = [{| Queries := [] |}].
Proof.
  refine (proj1 (proj2 (proj2 (proj2 (proj2
    (QueryPages_empty_batch Demo.simple_client (Some "u") Demo.cb_continue
       (Demo.world_serving (inr (External "unavailable"))))))) _)).
  discriminate.
Defined.

(** C1 as the spec has it fails in ring mode: a batch of two queries is
    dispatched once, and the dispatch makes two RPC calls, to B whose
    stream breaks and then to C. *)
Lemma QueryPages_small_batch_two_rpc_calls :
  let queries := [Demo.q1; Demo.q2] in
  let run := QueryPages Demo.ring_client (Some "u") queries
               Demo.cb_continue Demo.world_failover in
  len queries <= maxQueriesPerGrpc
  /\ fst (fst run) = Returned None
  /\ rpc_requests (snd run)
     = [{| Queries := map toIndexQuery queries |};
        {| Queries := map toIndexQuery queries |}]
  /\ length (rpc_requests (snd run)) <> 1%nat.
Proof.
  cbn zeta. split; [vm_compute; discriminate|].
  split; [reflexivity|]. split; [reflexivity|].
  vm_compute. discriminate.
Qed.

(** C7 as the spec has it fails: on the empty batch the simple-mode client
    still makes an RPC call, and when the server refuses it the call
    returns an error. *)
Lemma QueryPages_empty_batch_calls_server :
  let run := QueryPages Demo.simple_client (Some "u") [] Demo.cb_continue
               (Demo.world_serving (inr (External "unavailable"))) in
  snd run = [EvQueryIndex "gw" {| Queries := [] |}]
  /\ fst (fst run)
     = Returned (Some (Wrap (External "unavailable") "query index"))
  /\ ~ (rpc_requests (snd run) = [] /\ fst (fst run) = Returned None).
Proof.
  cbn zeta. split; [reflexivity|]. split; [reflexivity|].
  intros [Hrpc _]. discriminate Hrpc.
Qed.

(** ** The scenarios of the specification *)

(** 250 queries: three RPC calls with 100, 100 and 50 queries. *)
Example scenario_250_queries :
  map (fun req => length (Queries req))
      (rpc_requests
         (snd (QueryPages Demo.simple_client (Some "u")
                 (replicate 250 Demo.q1) Demo.cb_continue
                 (Demo.world_serving
                    (inl {| stream_msgs := []; stream_status := None |})))))
  = [100; 100; 50]%nat.
Proof. vm_compute. reflexivity. Qed.

(** Ring mode, replicas A, B, C: no connection to A, the stream of B
    breaks, C answers; the call succeeds. *)
Example scenario_failover :
  let run := QueryPages Demo.ring_client (Some "u") [Demo.q1; Demo.q2]
               Demo.cb_continue Demo.world_failover in
  fst (fst run) = Returned None
  /\ contacted (snd run) = ["A"; "B"; "C"]
  /\ logged_failures (snd run) = ["A"; "B"]
  /\ map (fun req => length (Queries req)) (rpc_requests (snd run)) = [2; 2]%nat.
Proof. vm_compute. auto. Qed.

(** Ring mode, no replica reachable: every address is tried once and the
    call fails with the error kept for this case. *)
Example scenario_all_replicas_fail :
  let run := QueryPages Demo.ring_client (Some "u") [Demo.q1]
               Demo.cb_continue Demo.world_down in
  fst (fst run) = Returned (Some no_replica_error)
  /\ contacted (snd run) = ["A"; "B"]
  /\ rpc_requests (snd run) = [].
Proof. vm_compute. auto. Qed.

(** * Further properties of the query path *)

(** ** One RPC call: what reaches the callback *)

Section StreamDelivery.
Context {Ext Client context : Type} `{!Collaborators Ext Client context}.
Implicit Types (x : Ext) (m : gmap string Query) (gq : list IndexQuery)
  (callback : QueryPagesCallback Ext) (ctx : context) (client : Client).

(** X1. Over an opened stream, [clientDoQueries] receives a prefix of the
    stream and hands the callback, in stream order, the responses of a
    prefix of what it received, each with the query the key map holds for
    its key; at most the last response received is not handed over. *)
Theorem stream_delivered_in_order ctx gq m callback client x streamer x1 :
  QueryIndex client ctx {| Queries := gq |} x = (inl streamer, x1) ->
  let t := snd (clientDoQueries ctx gq m callback client x) in
  exists k k' : nat,
    (k <= k' <= S k)%nat /\ (k' <= length (stream_msgs streamer))%nat
    /\ received t = take k' (stream_msgs streamer)
    /\ Forall2 (fun resp cb => delivery m resp = Some cb)
         (take k (stream_msgs streamer)) (callbacks t).
Proof.
  intros Hq. cbn zeta.
  rewrite (clientDoQueries_stream _ _ _ _ _ _ _ _ Hq). cbn -[recv_loop].
  apply (recv_loop_delivery (stream_msgs streamer)).
Qed.

(** X2. When every response of the stream carries a key of the map and the
    callback never asks to stop, every response is received and handed to
    the callback once, in stream order, and the call returns nil if the
    stream ends with [io.EOF] and the stream's error, with a stack,
    otherwise. *)
Theorem stream_fully_delivered ctx gq m callback client x streamer x1 :
  QueryIndex client ctx {| Queries := gq |} x = (inl streamer, x1) ->
  Forall (fun resp => is_Some (m !! QueryKey resp)) (stream_msgs streamer) ->
  (forall query batch x', fst (callback query batch x') = true) ->
  let run := clientDoQueries ctx gq m callback client x in
  fst (fst run) = Returned (WithStack <$> stream_status streamer)
  /\ received (snd run) = stream_msgs streamer
  /\ Forall2 (fun resp cb => delivery m resp = Some cb)
       (stream_msgs streamer) (callbacks (snd run)).
Proof.
  intros Hq Hknown Hcont. cbn zeta.
  rewrite (clientDoQueries_stream _ _ _ _ _ _ _ _ Hq). cbn -[recv_loop].
  apply (recv_loop_full_delivery (stream_msgs streamer)); assumption.
Qed.

End StreamDelivery.

Lemma stream_delivered_in_order_witness :
  let m := fst (@doQueries_build _ _ _ Demo.collaborators [Demo.q1; Demo.q2]) in
  let world := Demo.world_serving
    (inl {| stream_msgs := [Demo.resp1; Demo.resp_unknown; Demo.resp2];
            stream_status := None |}) in
  let t := snd (clientDoQueries (Some "u") [] m Demo.cb_continue "gw" world) in
  received t = [Demo.resp1; Demo.resp_unknown]
  /\ callbacks t = [(Demo.q1, {| rb_QueryIndexResponse := Demo.resp1 |})]
  /\ exists k k' : nat,
       (k <= k' <= S k)%nat /\ (k' <= 3)%nat
       /\ received t = take k' [Demo.resp1; Demo.resp_unknown; Demo.resp2]
       /\ Forall2 (fun resp cb => delivery m resp = Some cb)
            (take k [Demo.resp1; Demo.resp_unknown; Demo.resp2]) (callbacks t).
Proof.
  intros m world t. split; [reflexivity|]. split; [reflexivity|].
  exact (stream_delivered_in_order (Some "u") [] m Demo.cb_continue "gw" world
           {| stream_msgs := [Demo.resp1; Demo.resp_unknown; Demo.resp2];
              stream_status := None |} world eq_refl).
Defined.

Lemma stream_fully_delivered_witness :
  let m := fst (@doQueries_build _ _ _ Demo.collaborators [Demo.q1; Demo.q2]) in
  let streamer := {| stream_msgs := [Demo.resp1; Demo.resp2; Demo.resp1];
                     stream_status := Some (External "reset") |} in
  let world := Demo.world_serving (inl streamer) in
  let run := clientDoQueries (Some "u") [] m Demo.cb_continue "gw" world in
  fst (fst run) = Returned (Some (WithStack (External "reset")))
  /\ received (snd run) = [Demo.resp1; Demo.resp2; Demo.resp1]
  /\ length (callbacks (snd run)) = 3%nat.
Proof.
  intros m streamer world run.
  assert (Hknown : Forall (fun resp => is_Some (m !! QueryKey resp))
                          (stream_msgs streamer)).
  { repeat constructor; eexists; reflexivity. }
  assert (Hq : QueryIndex "gw" (Some "u") {| Queries := [] |} world
               = (inl streamer, world)) by reflexivity.
  destruct (stream_fully_delivered (Some "u") [] m Demo.cb_continue "gw" world
              streamer world Hq Hknown (fun _ _ _ => eq_refl))
    as (Hres & Hrecv & Hall).
  split; [exact Hres|]. split; [exact Hrecv|].
  symmetry. exact (Forall2_length _ _ _ Hall).
Defined.

(** ** One dispatch, in either mode *)

Section DispatchBehaviour.
Context {Ext Client context : Type} `{!Collaborators Ext Client context}.
Implicit Types (x : Ext) (m : gmap string Query) (gq : list IndexQuery)
  (callback : QueryPagesCallback Ext) (ctx : context)
  (s : GatewayClient Client) (queries : list Query).

(** X3. In either mode, a callback invocation that returned false is the
    last event of the dispatch: no later response is received, no other
    replica is contacted, and [doQueries] returns nil. *)
Theorem callback_stop_ends_dispatch s ctx queries callback x
    (t1 : list (event Client)) (query : Query) (batch : readBatch)
    (t2 : list (event Client)) :
  snd (doQueries s ctx queries callback x)
    = t1 ++ EvCallback query batch false :: t2 ->
  t2 = [] /\ fst (fst (doQueries s ctx queries callback x)) = Returned None.
Proof.
  rewrite doQueries_unfold.
  set (gq := map toIndexQuery queries). set (m := fst (doQueries_build queries)).
  case_decide as Hmode.
  - destruct (tenant_TenantID ctx) as [userID|err] eqn:Ht.
    + destruct (ring_Get (util_TokenFor userID "") WriteNoExtend x)
        as [[rs|err] x1] eqn:Hr.
      * destruct (rand_Shuffle (GetAddresses rs) x1) as [addrs x2] eqn:Hs.
        rewrite (ringModeDoQueries_resolved _ _ _ _ _ _ _ _ _ _ Ht Hr Hs).
        cbn [fst snd]. intros Hev.
        destruct t1 as [|e1 [|e2 t1]]; try discriminate Hev.
        injection Hev as _ _ Hev.
        apply (replica_loop_stop_ends addrs ctx gq m callback x2 t1 query batch t2 Hev).
      * rewrite (ringModeDoQueries_no_ring _ _ _ _ _ _ _ _ Ht Hr). cbn [snd].
        intros Hev. destruct t1 as [|e1 [|e2 t1]]; discriminate Hev.
    + rewrite (ringModeDoQueries_no_tenant _ _ _ _ _ _ Ht). cbn [snd].
      intros Hev. destruct t1; discriminate Hev.
  - destruct (clientDoQueries_events ctx gq m callback (grpcClient s) x)
      as (t & Hev & _ & _ & _ & _ & _ & Hstop).
    rewrite Hev. intros Hdec.
    destruct t1 as [|e1 t1]; [discriminate Hdec|]. injection Hdec as _ Hdec.
    apply (Hstop t1 query batch t2 Hdec).
Qed.

(** X4. Outside ring mode a dispatch consults neither the ring nor the
    pool: its events hold no ring lookup, no request for a connection
    handle and no failed-replica log record; its first event is the RPC
    call on the client's own connection; and when that call cannot be
    opened the dispatch returns that error wrapped with "query index",
    with nothing received and no callback. *)
Theorem simple_mode_uses_own_connection s ctx queries callback x :
  cfg_Mode s <> RingMode ->
  let run := doQueries s ctx queries callback x in
  let req := {| Queries := map toIndexQuery queries |} in
  ring_lookups (snd run) = []
  /\ contacted (snd run) = []
  /\ logged_failures (snd run) = []
  /\ (exists t, snd run = EvQueryIndex (grpcClient s) req :: t)
  /\ (forall err x1,
        QueryIndex (grpcClient s) ctx req x = (inr err, x1) ->
        run = (Returned (Some (Wrap err "query index")), x1,
               [EvQueryIndex (grpcClient s) req])).
Proof.
  intros Hmode. cbn zeta. rewrite doQueries_unfold.
  rewrite decide_False by exact Hmode.
  set (gq := map toIndexQuery queries). set (m := fst (doQueries_build queries)).
  pose proof (clientDoQueries_no_ring_lookup ctx gq m callback (grpcClient s) x) as Hring.
  pose proof (clientDoQueries_quiet ctx gq m callback (grpcClient s) x) as [Hc Hl].
  destruct (clientDoQueries_events ctx gq m callback (grpcClient s) x)
    as (t & Hev & _).
  split; [exact Hring|]. split; [exact Hc|]. split; [exact Hl|].
  split; [exists t; exact Hev|].
  intros err x1 Hq. apply clientDoQueries_rpc_error. exact Hq.
Qed.

(** X5. In ring mode, when the shuffled replica set is empty, the dispatch
    returns the error of the exhausted loop without asking for any
    connection handle and without any RPC call. *)
Theorem ring_empty_replica_set_fails s ctx queries callback x userID rs x1 x2 :
  cfg_Mode s = RingMode ->
  tenant_TenantID ctx = inl userID ->
  ring_Get (util_TokenFor userID "") WriteNoExtend x = (inl rs, x1) ->
  rand_Shuffle (GetAddresses rs) x1 = ([], x2) ->
  doQueries s ctx queries callback x
  = (Returned (Some no_replica_error), x2,
     [EvRingGet (util_TokenFor userID "") WriteNoExtend; EvShuffle []]).
Proof.
  intros Hmode Ht Hr Hs. rewrite doQueries_unfold.
  rewrite decide_True by exact Hmode.
  rewrite (ringModeDoQueries_resolved _ _ _ _ _ _ _ _ _ _ Ht Hr Hs).
  reflexivity.
Qed.

(** X6. In ring mode a dispatch looks the ring up at most once: never when
    the tenant ID is missing (then it has no event at all), otherwise
    exactly once, with the token of the tenant ID and the empty label
    string under [WriteNoExtend]; and the addresses it contacts are a
    prefix of the shuffled address list of that one lookup. *)
Theorem ring_looked_up_once s ctx queries callback x :
  cfg_Mode s = RingMode ->
  let t := snd (doQueries s ctx queries callback x) in
  match tenant_TenantID ctx with
  | inr _ => t = []
  | inl userID =>
      ring_lookups t = [(util_TokenFor userID "", WriteNoExtend)]
      /\ match ring_Get (util_TokenFor userID "") WriteNoExtend x with
         | (inl rs, x1) =>
             contacted t `prefix_of` fst (rand_Shuffle (GetAddresses rs) x1)
         | (inr _, _) => contacted t = []
         end
  end.
Proof.
  intros Hmode. cbn zeta. rewrite doQueries_unfold.
  rewrite decide_True by exact Hmode.
  set (gq := map toIndexQuery queries). set (m := fst (doQueries_build queries)).
  destruct (tenant_TenantID ctx) as [userID|err] eqn:Ht.
  - destruct (ring_Get (util_TokenFor userID "") WriteNoExtend x)
      as [[rs|err] x1] eqn:Hr.
    + destruct (rand_Shuffle (GetAddresses rs) x1) as [addrs x2] eqn:Hs.
      rewrite (ringModeDoQueries_resolved _ _ _ _ _ _ _ _ _ _ Ht Hr Hs).
      cbn [fst snd]. split.
      * change (ring_lookups
                  (EvRingGet (util_TokenFor userID "") WriteNoExtend
                     :: EvShuffle addrs
                     :: snd (replica_loop addrs ctx gq m callback x2)))
          with ((util_TokenFor userID "", WriteNoExtend)
                  :: ring_lookups (snd (replica_loop addrs ctx gq m callback x2))).
        rewrite replica_loop_no_ring_lookup. reflexivity.
      * apply (replica_loop_contacted_prefix addrs ctx gq m callback x2).
    + rewrite (ringModeDoQueries_no_ring _ _ _ _ _ _ _ _ Ht Hr). auto.
  - rewrite (ringModeDoQueries_no_tenant _ _ _ _ _ _ Ht). reflexivity.
Qed.


(** X8. Failover does not take back what a replica already delivered: when
    the streaming call to the first address fails, the callbacks of the
    loop are the callbacks made during that failed call followed by those
    of the loop over the remaining addresses, so a response can reach the
    callback once per replica that sent it. *)
Theorem failed_replica_callbacks_are_kept addr rest ctx gq m callback x
    client x1 err x2 tq :
  pool_GetClientFor addr x = (inl client, x1) ->
  clientDoQueries ctx gq m callback client x1 = (Returned (Some err), x2, tq) ->
  callbacks (snd (replica_loop (addr :: rest) ctx gq m callback x))
  = callbacks tq ++ callbacks (snd (replica_loop rest ctx gq m callback x2)).
Proof.
  intros Hp Hq.
  rewrite (replica_loop_call_failed _ rest _ _ _ _ _ _ _ _ _ _ Hp Hq).
  cbn [snd]. unfold callbacks. cbn [omap list_omap].
  rewrite omap_app. reflexivity.
Qed.

End DispatchBehaviour.

Lemma callback_stop_ends_dispatch_witness :
  let run := doQueries Demo.ring_client (Some "u") [Demo.q1; Demo.q2]
               Demo.cb_stop Demo.world_failover in
  fst (fst run) = Returned None
  /\ contacted (snd run) = ["A"; "B"]
  /\ callbacks (snd run) = [(Demo.q1, {| rb_QueryIndexResponse := Demo.resp1 |})].
Proof.
  intros run.
  pose proof (callback_stop_ends_dispatch Demo.ring_client (Some "u")
    [Demo.q1; Demo.q2] Demo.cb_stop Demo.world_failover
    [EvRingGet 0 WriteNoExtend; EvShuffle ["A"; "B"; "C"];
     EvGetClientFor "A"; EvLog (LogGetClientFailed "A" (External "dial"));
     EvGetClientFor "B";
     EvQueryIndex "B" {| Queries := map toIndexQuery [Demo.q1; Demo.q2] |};
     EvRecv (RecvMsg Demo.resp1)]
    Demo.q1 {| rb_QueryIndexResponse := Demo.resp1 |} [] eq_refl) as [_ Hres].
  split; [exact Hres|]. split; reflexivity.
Defined.

Lemma simple_mode_uses_own_connection_witness :
  doQueries Demo.simple_client (Some "u") [Demo.q1] Demo.cb_continue
    (Demo.world_serving (inr (External "unavailable")))
  = (Returned (Some (Wrap (External "unavailable") "query index")),
     Demo.world_serving (inr (External "unavailable")),
     [EvQueryIndex "gw" {| Queries := [toIndexQuery Demo.q1] |}]).
Proof.
  assert (Hmode : cfg_Mode Demo.simple_client <> RingMode) by discriminate.
  destruct (simple_mode_uses_own_connection Demo.simple_client (Some "u")
              [Demo.q1] Demo.cb_continue
              (Demo.world_serving (inr (External "unavailable"))) Hmode)
    as (_ & _ & _ & _ & Herr).
  apply (Herr (External "unavailable")). reflexivity.
Defined.

Lemma ring_empty_replica_set_fails_witness :
  let world := {| Demo.w_ring := inl {| Instances := [] |};
                  Demo.w_pool := fun a => inl a;
                  Demo.w_server := fun _ =>
                    inl {| stream_msgs := []; stream_status := None |};
                  Demo.w_calls := 0 |} in
  doQueries Demo.ring_client (Some "u") [Demo.q1] Demo.cb_continue world
  = (Returned (Some no_replica_error), world,
     [EvRingGet 0 WriteNoExtend; EvShuffle []]).
Proof.
  intros world.
  exact (ring_empty_replica_set_fails Demo.ring_client (Some "u") [Demo.q1]
           Demo.cb_continue world "u" {| Instances := [] |} world world
           eq_refl eq_refl eq_refl eq_refl).
Defined.

Lemma ring_looked_up_once_witness :
  let t := snd (doQueries Demo.ring_client (Some "u") [Demo.q1; Demo.q2]
                  Demo.cb_continue Demo.world_failover) in
  ring_lookups t = [(0, WriteNoExtend)]
  /\ contacted t `prefix_of` ["A"; "B"; "C"].
Proof.
  assert (Hmode : cfg_Mode Demo.ring_client = RingMode) by reflexivity.
  exact (ring_looked_up_once Demo.ring_client (Some "u") [Demo.q1; Demo.q2]
           Demo.cb_continue Demo.world_failover Hmode).
Defined.


Lemma failed_replica_callbacks_are_kept_witness :
  let m := fst (@doQueries_build _ _ _ Demo.collaborators [Demo.q1; Demo.q2]) in
  let gq := map toIndexQuery [Demo.q1; Demo.q2] in
  callbacks (snd (replica_loop ["B"; "C"] (Some "u") gq m
                    Demo.cb_continue Demo.world_failover))
  = [(Demo.q1, {| rb_QueryIndexResponse := Demo.resp1 |});
     (Demo.q1, {| rb_QueryIndexResponse := Demo.resp1 |});
     (Demo.q2, {| rb_QueryIndexResponse := Demo.resp2 |})].
Proof.
  intros m gq.
  assert (Hp : pool_GetClientFor "B" Demo.world_failover
               = (inl "B", Demo.world_failover)) by reflexivity.
  assert (Hq : clientDoQueries (Some "u") gq m Demo.cb_continue "B"
                 Demo.world_failover
               = (Returned (Some (WithStack (External "reset"))),
                  Demo.count_call Demo.world_failover,
                  [EvQueryIndex "B" {| Queries := gq |};
                   EvRecv (RecvMsg Demo.resp1);
                   EvCallback Demo.q1 {| rb_QueryIndexResponse := Demo.resp1 |} true;
                   EvRecv (RecvErr (External "reset"))])) by reflexivity.
  rewrite (failed_replica_callbacks_are_kept "B" ["C"] (Some "u") gq m
             Demo.cb_continue Demo.world_failover "B" Demo.world_failover
             _ _ _ Hp Hq).
  reflexivity.
Defined.

(** ** The job closure on any index *)

Section JobBounds.
Context {Ext Client context : Type} `{!Collaborators Ext Client context}.

(** X9. Whatever index the job closure is called with, valid or not, it
    either panics on the slice bounds before doing anything, or makes one
    dispatch of a contiguous slice of the batch with at most 100 queries;
    the 64-bit wrap-around of the bound computations cannot produce a
    longer slice. *)
Theorem jobFunc_never_exceeds_cap (s : GatewayClient Client)
    (queries : list Query) (callback : QueryPagesCallback Ext)
    (ctx : context) (idx : Z) (x : Ext) :
  jobFunc s queries callback ctx idx x
    = (Panicked "slice bounds out of range", x, [])
  \/ exists lo n : nat,
       (n <= 100)%nat
       /\ (lo + n <= length queries)%nat
       /\ jobFunc s queries callback ctx idx x
          = doQueries s ctx (take n (drop lo queries)) callback x.
Proof.
  unfold jobFunc, bind, lift_outcome, go_slice.
  set (lo := wrap64 (idx * maxQueriesPerGrpc)).
  set (hi := util_math_Min (wrap64 (wrap64 (idx + 1) * maxQueriesPerGrpc))
                           (len queries)).
  destruct ((0 <=? lo) && (lo <=? hi) && (hi <=? len queries)) eqn:Hb.
  - right. apply andb_prop in Hb as [Hb Hlen]. apply andb_prop in Hb as [H0 Hlo].
    apply Z.leb_le in H0, Hlo, Hlen.
    exists (Z.to_nat lo), (Z.to_nat (hi - lo)).
    assert (Hcap : hi - lo <= 100).
    { unfold hi, lo, maxQueriesPerGrpc in *. rewrite util_math_Min_min in *.
      unfold wrap64 in *. Z.div_mod_to_equations. lia. }
    split; [lia|]. split; [unfold len in Hlen; lia|].
    destruct (doQueries s ctx _ callback x) as [[r x'] t]. reflexivity.
  - left. reflexivity.
Qed.

End JobBounds.

(** ** Reading a batch through its iterator *)

Lemma go_index_beyond {A} (s : list A) (i : Z) :
  len s <= i -> go_index s i = Panicked "index out of range".
Proof.
  intros Hi. unfold go_index.
  rewrite (proj2 (Z.ltb_ge i (len s))) by lia.
  rewrite andb_false_r. reflexivity.
Qed.

Lemma Iterator_after_Next (r : readBatch) (k : nat) :
  Z.of_nat k <= 2 ^ 63 ->
  i (after_Next k (Iterator r)) = Z.of_nat k - 1
  /\ it_QueryIndexResponse (after_Next k (Iterator r)) = rb_QueryIndexResponse r.
Proof.
  intros Hk. split.
  - rewrite after_Next_position; simpl; unfold min_int, max_int; lia.
  - rewrite after_Next_response. reflexivity.
Qed.

Lemma nth_Next_in_range (r : readBatch) (k : nat) :
  (1 <= k)%nat -> Z.of_nat k <= 2 ^ 63 ->
  nth_Next k (Iterator r)
  = bool_decide (k <= length (Rows (rb_QueryIndexResponse r)))%nat.
Proof.
  intros H1 Hk. destruct k as [|k]; [lia|].
  unfold nth_Next. simpl Nat.pred.
  change (fst (Next (after_Next k (Iterator r))))
    with (i (snd (Next (after_Next k (Iterator r))))
          <? len (Rows (it_QueryIndexResponse (after_Next k (Iterator r))))).
  rewrite <- after_Next_snoc.
  destruct (Iterator_after_Next r (S k) Hk) as [-> _].
  rewrite after_Next_response. simpl it_QueryIndexResponse.
  unfold len. case_bool_decide as Hd.
  - apply Z.ltb_lt. lia.
  - apply Z.ltb_ge. lia.
Qed.

(** X10. The accessors are safe exactly after a call of [Next] that
    returned true: then [RangeValue] and [Value] return the two fields of
    one row of the batch; after a call that returned false both panic with
    an index out of range.  The count of calls is within the range of a Go
    [int]. *)
Theorem accessors_follow_Next (r : readBatch) (k : nat) :
  (1 <= k)%nat -> Z.of_nat k <= 2 ^ 63 ->
  let it := after_Next k (Iterator r) in
  (nth_Next k (Iterator r) = true ->
     exists row, Rows (rb_QueryIndexResponse r) !! (k - 1)%nat = Some row
       /\ iter_RangeValue it = Returned (RangeValue row)
       /\ iter_Value it = Returned (Value row))
  /\ (nth_Next k (Iterator r) = false ->
        iter_RangeValue it = Panicked "index out of range"
        /\ iter_Value it = Panicked "index out of range").
Proof.
  intros H1 Hk it.
  destruct (Iterator_after_Next r k Hk) as [Hpos Hresp]. fold it in Hpos, Hresp.
  rewrite (nth_Next_in_range r k H1 Hk).
  unfold iter_RangeValue, iter_Value. rewrite Hresp, Hpos.
  split; intros Hd.
  - apply bool_decide_eq_true in Hd.
    destruct (lookup_lt_is_Some_2 (Rows (rb_QueryIndexResponse r)) (k - 1))
      as [row Hrow]; [lia|].
    exists row. split; [exact Hrow|].
    replace (Z.of_nat k - 1) with (Z.of_nat (k - 1)) by lia.
    rewrite (go_index_lookup _ _ _ Hrow). split; reflexivity.
  - apply bool_decide_eq_false in Hd.
    rewrite go_index_beyond by (unfold len; lia). split; reflexivity.
Qed.

Lemma accessors_follow_Next_witness :
  nth_Next 3 (Iterator {| rb_QueryIndexResponse := Demo.resp1 |}) = false
  /\ iter_Value (after_Next 3 (Iterator {| rb_QueryIndexResponse := Demo.resp1 |}))
     = Panicked "index out of range".
Proof.
  assert (H1 : (1 <= 3)%nat) by lia.
  assert (H3 : Z.of_nat 3 <= 2 ^ 63) by (vm_compute; discriminate).
  split; [reflexivity|].
  apply (proj2 (accessors_follow_Next
                  {| rb_QueryIndexResponse := Demo.resp1 |} 3 H1 H3)).
  reflexivity.
Defined.

Lemma drain_from (r : readBatch) (fuel p : nat) (b : grpcIter) :
  len (Rows (rb_QueryIndexResponse r)) <= max_int ->
  it_QueryIndexResponse b = rb_QueryIndexResponse r ->
  i b = Z.of_nat p - 1 ->
  (p <= length (Rows (rb_QueryIndexResponse r)))%nat ->
  (length (Rows (rb_QueryIndexResponse r)) - p < fuel)%nat ->
  drain fuel b
  = Some (Returned (map (fun row => (RangeValue row, Value row))
                        (drop p (Rows (rb_QueryIndexResponse r))))).
Proof.
  intros Hmax. revert p b.
  induction fuel as [|fuel IH]; intros p b Hresp Hpos Hp Hfuel; [lia|].
  cbn [drain]. unfold Next. rewrite Hresp, Hpos.
  rewrite wrap64_id by (unfold len, min_int, max_int in *; lia).
  replace (Z.of_nat p - 1 + 1) with (Z.of_nat p) by lia.
  cbn [it_QueryIndexResponse i]. unfold len in *.
  destruct (Z.ltb_spec (Z.of_nat p)
              (Z.of_nat (length (Rows (rb_QueryIndexResponse r))))) as [Hlt|Hge].
  - destruct (lookup_lt_is_Some_2 (Rows (rb_QueryIndexResponse r)) p)
      as [row Hrow]; [lia|].
    unfold iter_RangeValue, iter_Value. cbn [it_QueryIndexResponse i].
    rewrite (go_index_lookup _ _ _ Hrow).
    rewrite (IH (S p)); [| reflexivity | cbn [i]; lia | lia | lia].
    rewrite (drop_S _ _ _ Hrow). reflexivity.
  - rewrite drop_ge by lia. reflexivity.
Qed.

(** X11. Reading a batch through a fresh iterator, with the loop
    [for it.Next() { it.RangeValue(); it.Value() }], ends after one call of
    [Next] more than there are rows, never panics, and yields the range
    value and value of every row of the response, once each and in the
    order of the response. *)
Theorem drain_yields_every_row (r : readBatch) (fuel : nat) :
  len (Rows (rb_QueryIndexResponse r)) <= max_int ->
  (length (Rows (rb_QueryIndexResponse r)) < fuel)%nat ->
  drain fuel (Iterator r)
  = Some (Returned (map (fun row => (RangeValue row, Value row))
                        (Rows (rb_QueryIndexResponse r)))).
Proof.
  intros Hmax Hfuel.
  rewrite (drain_from r fuel 0 (Iterator r) Hmax); try reflexivity; lia.
Qed.

Lemma drain_yields_every_row_witness :
  drain 3 (Iterator {| rb_QueryIndexResponse := Demo.resp1 |})
  = Some (Returned [(RangeValue Demo.row_a, Value Demo.row_a);
                    (RangeValue Demo.row_b, Value Demo.row_b)]).
Proof.
  apply (drain_yields_every_row {| rb_QueryIndexResponse := Demo.resp1 |} 3).
  - vm_compute. discriminate.
  - simpl. lia.
Defined.

(** ** Colliding keys *)

Section Collisions.
Context {Ext Client context : Type} `{!Collaborators Ext Client context}.

Lemma doQueries_build_holds_last (queries : list Query) (key : string)
    (query : Query) :
  fst (doQueries_build queries) !! key = Some query ->
  exists queries1 queries2,
    queries = queries1 ++ query :: queries2
    /\ shipper_util_QueryKey query ∉ map shipper_util_QueryKey queries2.
Proof.
  induction queries as [|query0 queries IH] using rev_ind.
  - unfold doQueries_build. simpl. rewrite lookup_empty. discriminate.
  - rewrite doQueries_build_snoc. cbn [fst]. rewrite lookup_insert_Some.
    intros [[<- <-]|[Hne Hl]].
    + exists queries, []. split; [reflexivity|]. simpl. apply not_elem_of_nil.
    + destruct (IH Hl) as (queries1 & queries2 & -> & Hnot).
      destruct (doQueries_build_lookup_Some _ _ _ Hl) as [_ Hkey].
      exists queries1, (queries2 ++ [query0]).
      split; [rewrite <- app_assoc; reflexivity|].
      rewrite map_app. simpl. rewrite not_elem_of_app, list_elem_of_singleton.
      split; [exact Hnot|congruence].
Qed.

(** X12. When queries of a sub-batch share a key, responses for that key go
    to the last of them only: every query the callback is handed during a
    dispatch is, among the queries of the sub-batch, the last one with its
    key, so a query followed by another with the same key is never handed
    to the callback. *)
Theorem callback_gets_last_query_of_key (s : GatewayClient Client)
    (ctx : context) (queries : list Query)
    (callback : QueryPagesCallback Ext) (x : Ext)
    (query : Query) (batch : readBatch) :
  (query, batch) ∈ callbacks (snd (doQueries s ctx queries callback x)) ->
  shipper_util_QueryKey query = QueryKey (rb_QueryIndexResponse batch)
  /\ exists queries1 queries2,
       queries = queries1 ++ query :: queries2
       /\ shipper_util_QueryKey query ∉ map shipper_util_QueryKey queries2.
Proof.
  intros Hcb. apply doQueries_callbacks in Hcb.
  split.
  - apply (doQueries_build_lookup_Some _ _ _ Hcb).
  - apply (doQueries_build_holds_last _ _ _ Hcb).
Qed.

End Collisions.

Lemma callback_gets_last_query_of_key_witness :
  let queries := [Demo.q1; Demo.q2; Demo.q1'] in
  let run := doQueries Demo.simple_client (Some "u") queries Demo.cb_continue
               (Demo.world_serving
                  (inl {| stream_msgs := [Demo.resp1]; stream_status := None |})) in
  callbacks (snd run) = [(Demo.q1', {| rb_QueryIndexResponse := Demo.resp1 |})]
  /\ exists queries1 queries2,
       queries = queries1 ++ Demo.q1' :: queries2
       /\ Demo.table_hash_key Demo.q1' ∉ map Demo.table_hash_key queries2.
Proof.
  intros queries run. split; [reflexivity|].
  assert (Hin : (Demo.q1', {| rb_QueryIndexResponse := Demo.resp1 |})
                ∈ callbacks (snd run)).
  { change (callbacks (snd run))
      with [(Demo.q1', {| rb_QueryIndexResponse := Demo.resp1 |})].
    apply list_elem_of_here. }
  exact (proj2 (callback_gets_last_query_of_key Demo.simple_client (Some "u")
           queries Demo.cb_continue
           (Demo.world_serving
              (inl {| stream_msgs := [Demo.resp1]; stream_status := None |}))
           Demo.q1' {| rb_QueryIndexResponse := Demo.resp1 |} Hin)).
Defined.
